(** * cal_cad: STEP volume tools, embedded and verified

    A shallow embedding of the command-line tools of the repository
    ([cal_fine.py], [voxel1.py], [voxel2.py], [cal_box.py], [test.py]):
    the hybrid exact / voxel volume pipeline, the stand-alone voxel tools,
    the bounding-box tool and the face exporter.

    - Python [float] arithmetic is reached through the interface [Num];
      two implementations are given, IEEE binary64 (what CPython runs) and
      exact rationals.
    - The geometry kernel (pythonOCC) and the mesh library (PyVista) are
      external: a [World] record holds what their calls answer. A call is
      taken to return; the one failure the scripts themselves look for, a
      read status other than [IFSelect_RetDone], is part of the record.
    - Printing, process exit, exceptions and every call into the two
      libraries are effects: a script is a computation in the monad [IO],
      which returns the log of the effects performed, in order, together
      with the way the computation ended. *)

From Stdlib Require Import ZArith List String Bool Lia.
From Stdlib Require Import QArith Qcanon Floats DecimalString DecimalZ.
From Stdlib Require Import Permutation.
Import ListNotations.

Set Implicit Arguments.

(** ** Arithmetic *)

(** The operations the scripts apply to Python floats. [of_int] is the
    conversion Python performs when an [int] meets a [float]
    ([vox.n_cells * pitch**3], [1/1_000]); float literals such as [1.0] and
    [0.0] are [of_int 1] and [of_int 0]. [fpow x n] is [x ** n], [None] when
    Python raises [OverflowError] instead of returning a value. The
    comparisons are the ones the statements below use; the scripts
    themselves never compare floats. *)
Class Num (F : Type) : Type := {
  of_int : Z -> F;
  fadd : F -> F -> F;
  fsub : F -> F -> F;
  fmul : F -> F -> F;
  fdiv : F -> F -> F;
  fpow : F -> nat -> option F;
  fleb : F -> F -> bool;
  fltb : F -> F -> bool
}.

(** IEEE binary64, round to nearest even. An integer is converted by
    rounding it to the nearest float (every count a mesh library can
    report is far below the range where Python refuses the conversion);
    below 2^63 the machine conversion [of_uint63] does it, and it is
    specified to give the same float as the general case.
    CPython hands [x ** n] to the C library and raises [OverflowError]
    when a finite [x] gives an infinite result. Repeated multiplication is
    the C library's value wherever the products are exactly representable,
    and overflows or underflows to zero when it does; the evaluations below
    only take powers of such values. *)
Fixpoint float_mul_pow (x : float) (n : nat) : float :=
  match n with
  | O => PrimFloat.one
  | S O => x
  | S n' => PrimFloat.mul x (float_mul_pow x n')
  end.

Definition float_of_Z (z : Z) : float :=
  if (0 <=? z)%Z && (z <? 9223372036854775808)%Z
  then of_uint63 (Uint63.of_Z z)
  else SF2Prim (binary_normalize prec emax z 0 false).

Definition float_pow (x : float) (n : nat) : option float :=
  let y := float_mul_pow x n in
  if PrimFloat.is_finite x && PrimFloat.is_infinity y then None else Some y.

#[export] Instance binary64 : Num float := {
  of_int := float_of_Z;
  fadd := PrimFloat.add;
  fsub := PrimFloat.sub;
  fmul := PrimFloat.mul;
  fdiv := PrimFloat.div;
  fpow := float_pow;
  fleb := PrimFloat.leb;
  fltb := PrimFloat.ltb
}.

(** Exact rational arithmetic: what the float operations approximate. *)
Definition Qc_leb (x y : Qc) : bool := Qle_bool x y.
Definition Qc_ltb (x y : Qc) : bool := negb (Qle_bool y x).

#[export] Instance exact : Num Qc := {
  of_int z := Q2Qc (inject_Z z);
  fadd := Qcplus;
  fsub := Qcminus;
  fmul := Qcmult;
  fdiv := Qcdiv;
  fpow x n := Some (Qcpower x n);
  fleb := Qc_leb;
  fltb := Qc_ltb
}.

(** ** Command-line values *)

(** [--unit], restricted by argparse to its three choices. *)
Inductive unit_name : Type := mm3 | cm3 | m3.

Definition unit_str (u : unit_name) : string :=
  match u with mm3 => "mm3" | cm3 => "cm3" | m3 => "m3" end.

(** [TopAbs_ShapeEnum], the kinds the explorers are asked for. *)
Inductive TopAbs : Type := TopAbs_SOLID | TopAbs_SHELL | TopAbs_FACE.

(** [IFSelect_ReturnStatus] of [STEPControl_Reader.ReadFile]. *)
Inductive IFSelect : Type :=
  IFSelect_RetVoid | IFSelect_RetDone | IFSelect_RetError
| IFSelect_RetFail | IFSelect_RetStop.

Definition is_RetDone (s : IFSelect) : bool :=
  match s with IFSelect_RetDone => true | _ => false end.

(** ** The outside world *)

(** What the file system, the geometry kernel and the mesh library answer.
    Every topological item the kernel hands back (sewn shape, solid, shell,
    face) is a [TopoDS_Shape]. An explorer yields finitely many items, here
    the list [Explorer sh kind] in traversal order. *)
Record World (F : Type) : Type := {
  TopoDS_Shape : Type;
  PolyData : Type;
  VoxelGrid : Type;
  path_exists : string -> bool;                 (* os.path.exists *)
  ReadFile : string -> IFSelect;                (* rdr.ReadFile(path) *)
  TransferredShape : string -> TopoDS_Shape;    (* TransferRoots(); Shape() *)
  SewedShape : F -> TopoDS_Shape -> TopoDS_Shape;
  Explorer : TopoDS_Shape -> TopAbs -> list TopoDS_Shape;
  MakeSolid : TopoDS_Shape -> option TopoDS_Shape; (* Some: IsDone() *)
  Mass : TopoDS_Shape -> F;                     (* props.Mass() *)
  CentreOfMass : TopoDS_Shape -> F * F * F;
  BndGet : TopoDS_Shape -> F * F * F * F * F * F; (* box.Get() *)
  stl_mesh : TopoDS_Shape -> PolyData;          (* the STL written, read back *)
  step_mesh : string -> PolyData;               (* read_step_file(...).triangulate() *)
  n_points : PolyData -> Z;
  triangulate : PolyData -> PolyData;
  voxelize : PolyData -> F -> VoxelGrid;
  n_cells : VoxelGrid -> Z
}.

(** ** Effects *)

(** One piece of an f-string: literal text (or a substituted string), a
    substituted [int], a float printed as is, a float printed with [d]
    decimals ([{x:.df}]), a centre-of-mass tuple. A printed line is the
    list of its pieces. *)
Inductive piece (F : Type) : Type :=
| Txt (s : string)
| Int (z : Z)
| Flt (x : F)
| Fix (d : nat) (x : F)
| Tup3 (c : F * F * F).

Arguments Txt {F} s.
Arguments Int {F} z.

Definition line (F : Type) : Type := list (piece F).

(** How a computation ends: with a value, by [sys.exit(code)], or with an
    exception that nothing catches. *)
Inductive outcome (F A : Type) : Type :=
| Ret (a : A)
| SysExit (code : Z)
| RuntimeError (msg : line F)
| OverflowError.

Arguments Ret {F A} a.
Arguments SysExit {F A} code.
Arguments RuntimeError {F A} msg.
Arguments OverflowError {F A}.

Section Effects.
Context {F : Type} (W : World F).

(** The effects a script performs. *)
Inductive event : Type :=
| Stdout (l : line F)
| Stderr (l : line F)
| EReadFile (path : string)
| ETransferRoots (path : string)
| ESewing (tol : F) (sh : TopoDS_Shape W)
| EExplore (sh : TopoDS_Shape W) (kind : TopAbs)
| EMakeSolid (shell : TopoDS_Shape W)
| EVolumeProperties (solid : TopoDS_Shape W)
| EBndBox (sh : TopoDS_Shape W)
| ETempDir (entered : bool)
| EWriteStl (sh : TopoDS_Shape W) (file : string)
| EReadMesh (file : string)
| EReadStepFile (path : string)
| ETriangulate
| EVoxelize (pitch : F)
| EMakeDirs (dir : string)
| EShow.

Definition IO (A : Type) : Type := list event * outcome F A.

Definition ret {A} (a : A) : IO A := ([], Ret a).

Definition bind {A B} (c : IO A) (k : A -> IO B) : IO B :=
  match c with
  | (t, Ret a) => let (t', o) := k a in (t ++ t', o)
  | (t, SysExit code) => (t, SysExit code)
  | (t, RuntimeError msg) => (t, RuntimeError msg)
  | (t, OverflowError) => (t, OverflowError)
  end.

Definition emit (e : event) : IO unit := ([e], Ret tt).
Definition print (l : line F) : IO unit := emit (Stdout l).
Definition print_err (l : line F) : IO unit := emit (Stderr l).
Definition sys_exit {A} (code : Z) : IO A := ([], SysExit code).
Definition raise {A} (msg : line F) : IO A := ([], RuntimeError msg).

(** A call into a library: logged, then answered by the world. *)
Definition call {A} (e : event) (answer : A) : IO A := ([e], Ret answer).

Definition trace {A} (c : IO A) : list event := fst c.
Definition result {A} (c : IO A) : outcome F A := snd c.

(** The status the process ends with: 0 when [main] returns, the code of
    [sys.exit], 1 for an uncaught exception. *)
Definition exit_code {A} (c : IO A) : Z :=
  match result c with
  | Ret _ => 0
  | SysExit code => code
  | RuntimeError _ => 1
  | OverflowError => 1
  end.

(** The value a computation returns, if it returns. *)
Definition value {A} (c : IO A) : option A :=
  match result c with
  | Ret a => Some a
  | _ => None
  end.
End Effects.

Arguments ret {F W A} a.
Arguments sys_exit {F W A} code.
Arguments raise {F W A} msg.
Arguments emit {F W} e.
Arguments print {F W} l.
Arguments print_err {F W} l.
Arguments call {F W A} e answer.
Arguments Stdout {F W} l.
Arguments Stderr {F W} l.
Arguments EReadFile {F W} path.
Arguments ETransferRoots {F W} path.
Arguments ETempDir {F W} entered.
Arguments ESewing {F W} tol sh.
Arguments EExplore {F W} sh kind.
Arguments EMakeSolid {F W} shell.
Arguments EVolumeProperties {F W} solid.
Arguments EBndBox {F W} sh.
Arguments EWriteStl {F W} sh file.
Arguments EReadMesh {F W} file.
Arguments EReadStepFile {F W} path.
Arguments ETriangulate {F W}.
Arguments EVoxelize {F W} pitch.
Arguments EMakeDirs {F W} dir.
Arguments EShow {F W}.

Declare Scope io_scope.
Delimit Scope io_scope with io.
Notation "x <- c ;; k" := (bind c (fun x => k))
  (at level 61, c at next level, right associativity) : io_scope.
Notation "' pat <- c ;; k" := (bind c (fun x => match x with pat => k end))
  (at level 61, pat pattern, c at next level, right associativity) : io_scope.
Notation "c ;; k" := (bind c (fun _ => k))
  (at level 61, right associativity) : io_scope.
Open Scope io_scope.
Open Scope string_scope.
Open Scope Z_scope.

(** [for x in xs: body(x)] *)
Fixpoint for_each {F} {W : World F} {A} (xs : list A) (body : A -> IO W unit)
  : IO W unit :=
  match xs with
  | [] => ret tt
  | x :: xs' => body x ;; for_each xs' body
  end.

(** [if c: body] *)
Definition when {F} {W : World F} (c : bool) (body : IO W unit) : IO W unit :=
  if c then body else ret tt.

(** [x ** n] *)
Definition power {F} {N : Num F} {W : World F} (x : F) (n : nat) : IO W F :=
  match fpow x n with
  | Some y => ret y
  | None => ([], OverflowError)
  end.

(** Python truth of a list. *)
Definition nonempty {A} (l : list A) : bool :=
  match l with [] => false | _ :: _ => true end.

(** ** cal_fine.py: the hybrid pipeline *)

Module cal_fine.
Section Script.
Context {F : Type} {N : Num F} (W : World F).

Definition read_step_shape (path : string) : IO W (TopoDS_Shape W) :=
  status <- call (EReadFile path) (ReadFile W path) ;;
  if negb (is_RetDone status)
  then raise [Txt "STEP read failed: "; Txt path]
  else call (ETransferRoots path) (TransferredShape W path).

(** [while exp.More(): solids.append(exp.Current()); exp.Next()] *)
Fixpoint append_all (items solids : list (TopoDS_Shape W))
  : list (TopoDS_Shape W) :=
  match items with
  | [] => solids
  | current :: rest => append_all rest (solids ++ [current])
  end.

(** The second loop: each shell goes through [BRepBuilderAPI_MakeSolid]
    and is kept when [maker.IsDone()]. *)
Fixpoint shells_to_solids (shells solids : list (TopoDS_Shape W))
  : IO W (list (TopoDS_Shape W)) :=
  match shells with
  | [] => ret solids
  | shell :: rest =>
      maker <- call (EMakeSolid shell) (MakeSolid W shell) ;;
      match maker with
      | Some solid => shells_to_solids rest (solids ++ [solid])
      | None => shells_to_solids rest solids
      end
  end.

Definition sewing_to_solids (shape : TopoDS_Shape W) (tol : F)
  : IO W (list (TopoDS_Shape W)) :=
  sewed <- call (ESewing tol shape) (SewedShape W tol shape) ;;
  found <- call (EExplore sewed TopAbs_SOLID) (Explorer W sewed TopAbs_SOLID) ;;
  let solids := append_all found [] in
  if nonempty solids then ret solids
  else
    shells <- call (EExplore sewed TopAbs_SHELL) (Explorer W sewed TopAbs_SHELL) ;;
    shells_to_solids shells solids.

(** One entry of the list [solids_volume] returns: [(idx, vm, com)]. *)
Definition info : Type := (Z * F * (F * F * F))%type.

(** The loop of [solids_volume], [idx] being the counter of [enumerate]. *)
Fixpoint solids_volume_loop (idx : Z) (solids : list (TopoDS_Shape W))
    (unit_scale : F) (results : list info) (total : F)
  : IO W (list info * F) :=
  match solids with
  | [] => ret (results, total)
  | solid :: rest =>
      props <- call (EVolumeProperties solid)
                    (Mass W solid, CentreOfMass W solid) ;;
      let vm := fmul (fst props) unit_scale in
      let com := snd props in
      solids_volume_loop (idx + 1) rest unit_scale
                         (results ++ [(idx, vm, com)]) (fadd total vm)
  end.

Definition solids_volume (solids : list (TopoDS_Shape W)) (unit_scale : F)
  : IO W (list info * F) :=
  solids_volume_loop 0 solids unit_scale [] (of_int 0).

Definition bbox_volume_mm3 (shape : TopoDS_Shape W)
  : IO W (F * F * F * F * F * F * F) :=
  '(xmin, ymin, zmin, xmax, ymax, zmax) <-
      call (EBndBox shape) (BndGet W shape) ;;
  ret (xmin, ymin, zmin, xmax, ymax, zmax,
       fmul (fmul (fsub xmax xmin) (fsub ymax ymin)) (fsub zmax zmin)).

Definition shape_to_pv_mesh (shape : TopoDS_Shape W) : IO W (PolyData W) :=
  emit (ETempDir true) ;;
  emit (EWriteStl shape "t.stl") ;;
  mesh <- call (EReadMesh "t.stl") (stl_mesh W shape) ;;
  emit (ETempDir false) ;;
  ret mesh.

Definition voxel_volume (mesh : PolyData W) (pitch : F)
  : IO W (VoxelGrid W * F) :=
  tri <- call ETriangulate (triangulate W mesh) ;;
  vox <- call (EVoxelize pitch) (voxelize W tri pitch) ;;
  cube <- power pitch 3 ;;
  let vol_mm3 := fmul (of_int (n_cells W vox)) cube in
  ret (vox, vol_mm3).

Definition UNIT (u : unit_name) : F :=
  match u with
  | mm3 => of_int 1
  | cm3 => fdiv (of_int 1) (of_int 1000)
  | m3 => fdiv (of_int 1) (of_int 1000000000)
  end.

(** The parsed command line. *)
Record Args : Type := {
  step : string;
  tol : F;
  pitch : F;
  unit_ : unit_name;
  show : bool;
  bbox : bool
}.

Definition main (args : Args) : IO W unit :=
  if negb (path_exists W (step args)) then
    print_err [Txt "STEP file not found."] ;; sys_exit 1
  else
    print [Txt "[READ] "; Txt (step args)] ;;
    shape <- read_step_shape (step args) ;;
    when (bbox args)
      ('(_, _, _, _, _, _, bbox_mm3) <- bbox_volume_mm3 shape ;;
       print [Txt "[BBox] volume = ";
              Fix 6 (fmul bbox_mm3 (UNIT (unit_ args)));
              Txt " "; Txt (unit_str (unit_ args))]) ;;
    print [Txt "[Sew] tol="; Flt (tol args); Txt " mm ..."] ;;
    solids <- sewing_to_solids shape (tol args) ;;
    if nonempty solids then
      '(infos, total) <- solids_volume solids (UNIT (unit_ args)) ;;
      print [Txt "[OK] closed solids found = ";
             Int (Z.of_nat (List.length infos))] ;;
      for_each infos (fun '(idx, v, com) =>
        print [Txt "  • Solid "; Int idx; Txt ": "; Fix 6 v; Txt " ";
               Txt (unit_str (unit_ args)); Txt " (COM "; Tup3 com;
               Txt ")"]) ;;
      print [Txt "  Σ Total: "; Fix 6 total; Txt " ";
             Txt (unit_str (unit_ args))]
    else
      print [Txt "[WARN] No closed solid after sewing. Falling back to voxel..."] ;;
      mesh <- shape_to_pv_mesh shape ;;
      '(vox, vol_mm3) <- voxel_volume mesh (pitch args) ;;
      print [Txt "[Voxel] pitch="; Flt (pitch args); Txt " mm → ";
             Fix 6 (fmul vol_mm3 (UNIT (unit_ args))); Txt " ";
             Txt (unit_str (unit_ args))] ;;
      when (show args) (emit EShow).
End Script.
End cal_fine.

(** ** voxel1.py: the stand-alone voxel tool *)

Definition nl : string := String (Ascii.ascii_of_nat 10) EmptyString.

Module voxel1.
Section Script.
Context {F : Type} {N : Num F} (W : World F).

Definition read_step_shape (path : string) : IO W (TopoDS_Shape W) :=
  status <- call (EReadFile path) (ReadFile W path) ;;
  if negb (is_RetDone status)
  then raise [Txt "STEP read failed: "; Txt path]
  else call (ETransferRoots path) (TransferredShape W path).

Definition shape_bbox_mm3 (shape : TopoDS_Shape W)
  : IO W (F * F * F * F * F * F * F) :=
  '(xmin, ymin, zmin, xmax, ymax, zmax) <-
      call (EBndBox shape) (BndGet W shape) ;;
  let dx := fsub xmax xmin in
  let dy := fsub ymax ymin in
  let dz := fsub zmax zmin in
  let vol := fmul (fmul dx dy) dz in
  ret (xmin, ymin, zmin, xmax, ymax, zmax, vol).

Definition shape_to_pv_mesh (shape : TopoDS_Shape W) : IO W (PolyData W) :=
  emit (ETempDir true) ;;
  emit (EWriteStl shape "tmp.stl") ;;
  mesh <- call (EReadMesh "tmp.stl") (stl_mesh W shape) ;;
  emit (ETempDir false) ;;
  ret mesh.

Definition voxel_volume_mm3 (mesh : PolyData W) (pitch : F)
  : IO W (VoxelGrid W * F) :=
  tri <- call ETriangulate (triangulate W mesh) ;;
  vox <- call (EVoxelize pitch) (voxelize W tri pitch) ;;
  let n_cells := n_cells W vox in
  cube <- power pitch 3 ;;
  let vol := fmul cube (of_int n_cells) in
  ret (vox, vol).

Definition UNIT_SCALE (u : unit_name) : F :=
  match u with
  | mm3 => of_int 1
  | cm3 => fdiv (of_int 1) (of_int 1000)
  | m3 => fdiv (of_int 1) (of_int 1000000000)
  end.

Definition convert_volume (vol_mm3 : F) (u : unit_name) : F :=
  fmul vol_mm3 (UNIT_SCALE u).

Record Args : Type := {
  step : string;
  pitch : F;
  unit_ : unit_name;
  show : bool;
  bbox : bool
}.

Definition main (args : Args) : IO W unit :=
  let step_path := step args in
  if negb (path_exists W step_path) then
    print_err [Txt "STEP file not found: "; Txt step_path] ;; sys_exit 1
  else
    print [Txt "[INFO] Reading STEP: "; Txt step_path] ;;
    shape <- read_step_shape step_path ;;
    when (bbox args)
      ('(xmin, ymin, zmin, xmax, ymax, zmax, bbox_vol_mm3) <-
          shape_bbox_mm3 shape ;;
       let bbox_vol_conv := convert_volume bbox_vol_mm3 (unit_ args) in
       print [Txt nl; Txt "[Bounding Box]"] ;;
       print [Txt "  x: "; Fix 3 xmin; Txt " – "; Fix 3 xmax] ;;
       print [Txt "  y: "; Fix 3 ymin; Txt " – "; Fix 3 ymax] ;;
       print [Txt "  z: "; Fix 3 zmin; Txt " – "; Fix 3 zmax] ;;
       print [Txt "  Volume("; Txt (unit_str (unit_ args)); Txt "): ";
              Fix 6 bbox_vol_conv]) ;;
    print [Txt "[INFO] Converting shape to mesh..."] ;;
    mesh <- shape_to_pv_mesh shape ;;
    if n_points W mesh =? 0 then
      print_err [Txt "ERROR: Empty mesh extracted."] ;; sys_exit 2
    else
      print [Txt "[INFO] Voxelizing @ pitch="; Flt (pitch args); Txt " ..."] ;;
      '(vox, vol_mm3) <- voxel_volume_mm3 mesh (pitch args) ;;
      let vol_conv := convert_volume vol_mm3 (unit_ args) in
      print [Txt nl; Txt "[Voxel Volume Approximation]"] ;;
      print [Txt "  Pitch: "; Flt (pitch args); Txt " (model units)"] ;;
      print [Txt "  Cells: "; Int (n_cells W vox)] ;;
      print [Txt "  Volume: "; Fix 6 vol_conv; Txt " ";
             Txt (unit_str (unit_ args))] ;;
      when (show args)
        (print [Txt "[INFO] Launching viewer..."] ;; emit EShow).
End Script.
End voxel1.

(** ** voxel2.py: the voxel tool that reads the STEP file itself *)

Module voxel2.
Section Script.
Context {F : Type} {N : Num F} (W : World F).

Definition voxel_volume (step_path : string) (pitch unit_scale : F)
  : IO W (F * VoxelGrid W) :=
  surface <- call (EReadStepFile step_path) (step_mesh W step_path) ;;
  print [Txt "[INFO] Voxelizing with pitch="; Flt pitch; Txt "mm ..."] ;;
  vox <- call (EVoxelize pitch) (voxelize W surface pitch) ;;
  cube <- power pitch 3 ;;
  let vol_mm3 := fmul (of_int (n_cells W vox)) cube in
  let vol := fmul vol_mm3 unit_scale in
  ret (vol, vox).

Definition visualize_voxel (vox : VoxelGrid W) : IO W unit := emit EShow.

Record Args : Type := {
  step : string;
  pitch : F;
  unit_ : unit_name;
  view : bool
}.

(** The dict literal [main] indexes with [args.unit]. *)
Definition unit_scale_table (u : unit_name) : F :=
  match u with
  | mm3 => of_int 1
  | cm3 => fdiv (of_int 1) (of_int 1000)
  | m3 => fdiv (of_int 1) (of_int 1000000000)
  end.

Definition main (args : Args) : IO W unit :=
  let step_file := step args in
  let pitch := pitch args in
  if negb (path_exists W step_file) then
    print [Txt "[ERROR] STEP 파일이 존재하지 않습니다: "; Txt step_file] ;;
    sys_exit 1
  else
    let unit_scale := unit_scale_table (unit_ args) in
    print [Txt "[INFO] STEP 파일: "; Txt step_file] ;;
    print [Txt "[INFO] Voxel Pitch: "; Flt pitch; Txt " mm"] ;;
    print [Txt "[INFO] Target Unit: "; Txt (unit_str (unit_ args))] ;;
    '(vol, vox) <- voxel_volume step_file pitch unit_scale ;;
    print [Txt nl; Txt "[결과] 근사 부피: "; Fix 3 vol; Txt " ";
           Txt (unit_str (unit_ args))] ;;
    when (view args) (visualize_voxel vox).
End Script.
End voxel2.

(** ** cal_box.py: the bounding-box tool *)

Module cal_box.
Section Script.
Context {F : Type} {N : Num F} (W : World F).

Definition compute_bbox_volume (step_filename : string)
  : IO W (F * F * F * F * F * F * F) :=
  status <- call (EReadFile step_filename) (ReadFile W step_filename) ;;
  if negb (is_RetDone status)
  then raise [Txt "STEP 파일 읽기 실패: "; Txt step_filename]
  else
    shape <- call (ETransferRoots step_filename)
                  (TransferredShape W step_filename) ;;
    '(xmin, ymin, zmin, xmax, ymax, zmax) <-
        call (EBndBox shape) (BndGet W shape) ;;
    let dx := fsub xmax xmin in
    let dy := fsub ymax ymin in
    let dz := fsub zmax zmin in
    let volume := fmul (fmul dx dy) dz in
    ret (xmin, ymin, zmin, xmax, ymax, zmax, volume).

Record Args : Type := {
  step : string;
  out : string;
  unit_ : unit_name
}.

(** The dict literal [main] indexes with [args.unit]. *)
Definition scale_table (u : unit_name) : F :=
  match u with
  | mm3 => of_int 1
  | cm3 => fdiv (of_int 1) (of_int 1000)
  | m3 => fdiv (of_int 1) (of_int 1000000000)
  end.

Definition main (args : Args) : IO W unit :=
  let scale := scale_table (unit_ args) in
  let step_file := step args in
  if negb (path_exists W step_file) then
    print [Txt "입력 STEP 파일이 존재하지 않습니다: "; Txt step_file] ;;
    sys_exit 1
  else
    '(xmin, ymin, zmin, xmax, ymax, zmax, vol_mm3) <-
        compute_bbox_volume step_file ;;
    let vol_conv := fmul vol_mm3 scale in
    print [Txt nl; Txt "[Bounding Box]"] ;;
    print [Txt "  x: "; Fix 3 xmin; Txt " – "; Fix 3 xmax] ;;
    print [Txt "  y: "; Fix 3 ymin; Txt " – "; Fix 3 ymax] ;;
    print [Txt "  z: "; Fix 3 zmin; Txt " – "; Fix 3 zmax] ;;
    print [Txt "  Volume: "; Fix 6 vol_conv; Txt " ";
           Txt (unit_str (unit_ args))].
End Script.
End cal_box.

(** ** test.py: the face exporter *)

Module test.
Section Script.
Context {F : Type} {N : Num F} (W : World F).

Definition ends_with_slash (s : string) : bool :=
  match String.length s with
  | O => false
  | S n => match String.get n s with
           | Some c => Ascii.eqb c (Ascii.ascii_of_nat 47)
           | None => false
           end
  end.

(** [os.path.join(a, b)] for a relative [b]. *)
Definition path_join (a b : string) : string :=
  if (String.length a =? 0)%nat || ends_with_slash a
  then a ++ b else a ++ "/" ++ b.

Definition str_of_int (z : Z) : string :=
  DecimalString.NilZero.string_of_int (Z.to_int z).

(** The [while exp.More()] loop over the faces. *)
Fixpoint export_loop (faces : list (TopoDS_Shape W)) (out_dir : string)
    (face_index : Z) (out_filenames : list string) : IO W (list string) :=
  match faces with
  | [] => ret out_filenames
  | face :: rest =>
      let out_filename :=
        path_join out_dir ("face_" ++ str_of_int face_index ++ ".stl") in
      emit (EWriteStl face out_filename) ;;
      print [Txt out_filename; Txt " 저장 완료."] ;;
      export_loop rest out_dir (face_index + 1)
                  (out_filenames ++ [out_filename])
  end.

Definition export_step_faces_to_stl (step_filename out_dir : string)
  : IO W (list string) :=
  status <- call (EReadFile step_filename) (ReadFile W step_filename) ;;
  if negb (is_RetDone status)
  then raise [Txt "STEP 파일을 읽는 데 실패했습니다: "; Txt step_filename]
  else
    shape <- call (ETransferRoots step_filename)
                  (TransferredShape W step_filename) ;;
    emit (EMakeDirs out_dir) ;;
    faces <- call (EExplore shape TopAbs_FACE)
                  (Explorer W shape TopAbs_FACE) ;;
    export_loop faces out_dir 0 [].

Definition load_and_view_faces (stl_files : list string) : IO W unit :=
  if negb (nonempty stl_files) then
    print [Txt "STL 파일이 없습니다."]
  else
    for_each stl_files (fun stl_file => emit (EReadMesh stl_file)) ;;
    print [Txt "[안내] 3D 창에서 마우스 왼쪽 드래그로 회전, 휠로 줌, 'P' 키로 픽 모드를 토글할 수 있습니다."] ;;
    emit EShow.

Record Args : Type := {
  step : string;
  out : string
}.

Definition main (args : Args) : IO W unit :=
  let step_file := step args in
  let out_dir := out args in
  if negb (path_exists W step_file) then
    print [Txt "입력 STEP 파일이 존재하지 않습니다: "; Txt step_file] ;;
    sys_exit 1
  else
    print [Txt "STEP 파일에서 면 추출 중... ("; Txt step_file; Txt ")"] ;;
    face_stl_files <- export_step_faces_to_stl step_file out_dir ;;
    print [Txt "PyVista를 통해 면 시각화 중..."] ;;
    load_and_view_faces face_stl_files.
End Script.
End test.

(** ** Reading a log *)

Section Observations.
Context {F : Type} {W : World F}.

(** What was printed on standard output, line by line. *)
Definition stdout (t : list (event W)) : list (line F) :=
  flat_map (fun e => match e with Stdout l => [l] | _ => [] end) t.

Definition stderr (t : list (event W)) : list (line F) :=
  flat_map (fun e => match e with Stderr l => [l] | _ => [] end) t.

(** The pitches the voxelizer was run at, one per run. *)
Definition voxel_pitches (t : list (event W)) : list F :=
  flat_map (fun e => match e with EVoxelize p => [p] | _ => [] end) t.

(** The shells handed to [BRepBuilderAPI_MakeSolid]. *)
Definition make_solid_calls (t : list (event W)) : list (TopoDS_Shape W) :=
  flat_map (fun e => match e with EMakeSolid sh => [sh] | _ => [] end) t.

(** The shapes whose bounding box was asked for. *)
Definition bbox_calls (t : list (event W)) : list (TopoDS_Shape W) :=
  flat_map (fun e => match e with EBndBox sh => [sh] | _ => [] end) t.

(** Loading a shape: reading or transferring a STEP file. *)
Definition loads (e : event W) : bool :=
  match e with
  | EReadFile _ | ETransferRoots _ | EReadStepFile _ => true
  | _ => false
  end.

(** Touching the file system for writing: a file, a directory, the
    temporary directory. *)
Definition writes (e : event W) : bool :=
  match e with
  | ETempDir _ | EWriteStl _ _ | EMakeDirs _ => true
  | _ => false
  end.
End Observations.

(** The volume figures of the hybrid pipeline, read off its output: one
    entry per solid line, the total line, the voxel line. *)
Inductive report (F : Type) : Type :=
| RSolid (idx : Z) (v : F) (com : F * F * F)
| RTotal (total : F)
| RVoxel (pitch v : F).

Definition report_of_line {F} (l : line F) : list (report F) :=
  match l with
  | [Txt tag; Int idx; Txt _; Fix _ v; Txt _; Txt _; Txt _; Tup3 com; Txt _] =>
      if (tag =? "  • Solid ")%string then [RSolid idx v com] else []
  | [Txt tag; Fix _ total; Txt _; Txt _] =>
      if (tag =? "  Σ Total: ")%string then [RTotal total] else []
  | [Txt tag; Flt p; Txt _; Fix _ v; Txt _; Txt _] =>
      if (tag =? "[Voxel] pitch=")%string then [RVoxel p v] else []
  | _ => []
  end.

Definition reports {F} {W : World F} (t : list (event W)) : list (report F) :=
  flat_map report_of_line (stdout t).

(** ** What the loops compute *)

Section Folds.
Context {F : Type} {N : Num F} (W : World F).

(** The solids the shells of a list close into, in order. *)
Definition closed_shells (shells : list (TopoDS_Shape W))
  : list (TopoDS_Shape W) :=
  flat_map (fun shell => match MakeSolid W shell with
                         | Some solid => [solid]
                         | None => []
                         end) shells.

(** [(idx, Mass * unit_scale, CentreOfMass)] for each solid, counting from
    [idx]. *)
Fixpoint entries (idx : Z) (solids : list (TopoDS_Shape W)) (unit_scale : F)
  : list (Z * F * (F * F * F)) :=
  match solids with
  | [] => []
  | solid :: rest =>
      (idx, fmul (Mass W solid) unit_scale, CentreOfMass W solid)
        :: entries (idx + 1) rest unit_scale
  end.

(** A running sum, left to right, as [total += vm] builds it. *)
Definition sum_from (total : F) (xs : list F) : F := fold_left fadd xs total.

Definition volume_of (i : Z * F * (F * F * F)) : F := snd (fst i).

(** The product of the three extents of a box. *)
Definition extents_product (b : F * F * F * F * F * F) : F :=
  let '(xmin, ymin, zmin, xmax, ymax, zmax) := b in
  fmul (fmul (fsub xmax xmin) (fsub ymax ymin)) (fsub zmax zmin).

(** [xmin <= xmax], [ymin <= ymax], [zmin <= zmax]. *)
Definition well_formed_box (b : F * F * F * F * F * F) : bool :=
  let '(xmin, ymin, zmin, xmax, ymax, zmax) := b in
  fleb xmin xmax && fleb ymin ymax && fleb zmin zmax.
End Folds.

(** ** A synthetic world *)

(** A scene lists what a kernel would find in a file: the solids present
    after sewing (mass and centre of mass), the shells, each closing into
    a solid or not, the bounding box, the number of mesh points and of
    voxel cells. [world_of] is the world in which every file holds that
    scene. *)
Record Scene (F : Type) : Type := {
  present : bool;
  readable : bool;
  solids_found : list (F * (F * F * F));
  shells_found : list (option (F * (F * F * F)));
  faces_found : nat;
  box : F * F * F * F * F * F;
  points : Z;
  cells : Z
}.

Inductive scene_shape (F : Type) : Type :=
| Whole
| ASolid (props : F * (F * F * F))
| AShell (closes : option (F * (F * F * F)))
| AFace (n : nat).

Arguments Whole {F}.
Arguments AFace {F} n.

Definition world_of {F} {N : Num F} (sc : Scene F) : World F := {|
  TopoDS_Shape := scene_shape F;
  PolyData := Z;
  VoxelGrid := Z;
  path_exists := fun _ => present sc;
  ReadFile := fun _ => if readable sc then IFSelect_RetDone else IFSelect_RetFail;
  TransferredShape := fun _ => Whole;
  SewedShape := fun _ sh => sh;
  Explorer := fun sh kind =>
    match sh, kind with
    | Whole, TopAbs_SOLID => map (@ASolid F) (solids_found sc)
    | Whole, TopAbs_SHELL => map (@AShell F) (shells_found sc)
    | Whole, TopAbs_FACE => map AFace (seq 0 (faces_found sc))
    | _, _ => []
    end;
  MakeSolid := fun sh =>
    match sh with
    | AShell (Some props) => Some (ASolid props)
    | _ => None
    end;
  Mass := fun sh =>
    match sh with ASolid props => fst props | _ => of_int 0 end;
  CentreOfMass := fun sh =>
    match sh with
    | ASolid props => snd props
    | _ => (of_int 0, of_int 0, of_int 0)
    end;
  BndGet := fun _ => box sc;
  stl_mesh := fun _ => points sc;
  step_mesh := fun _ => points sc;
  n_points := fun m => m;
  triangulate := fun m => m;
  voxelize := fun _ _ => cells sc;
  n_cells := fun g => g
|}.

(** The shapes of a scene, as shapes of its world. *)
Definition whole {F} {N : Num F} (sc : Scene F) : TopoDS_Shape (world_of sc) :=
  Whole.

Definition solid_of {F} {N : Num F} (sc : Scene F) (props : F * (F * F * F))
  : TopoDS_Shape (world_of sc) :=
  ASolid props.

Definition shell_of {F} {N : Num F} (sc : Scene F)
    (closes : option (F * (F * F * F))) : TopoDS_Shape (world_of sc) :=
  AShell closes.

Definition face_of {F} {N : Num F} (sc : Scene F) (n : nat)
  : TopoDS_Shape (world_of sc) :=
  AFace n.

(** A closed cube of 10 mm. *)
Definition cube {F} {N : Num F} : Scene F := {|
  present := true; readable := true;
  solids_found := [(of_int 1000, (of_int 5, of_int 5, of_int 5))];
  shells_found := [Some (of_int 1000, (of_int 5, of_int 5, of_int 5))];
  faces_found := 6;
  box := (of_int 0, of_int 0, of_int 0, of_int 10, of_int 10, of_int 10);
  points := 8; cells := 1000
|}.

(** The cube with one face removed: nothing closes. *)
Definition open_cube {F} {N : Num F} : Scene F := {|
  present := true; readable := true;
  solids_found := [];
  shells_found := [None];
  faces_found := 5;
  box := (of_int 0, of_int 0, of_int 0, of_int 10, of_int 10, of_int 10);
  points := 8; cells := 1000
|}.

(** Two shells, the first of which closes into a solid. *)
Definition two_shells {F} {N : Num F} : Scene F := {|
  present := true; readable := true;
  solids_found := [];
  shells_found := [Some (of_int 1000, (of_int 5, of_int 5, of_int 5)); None];
  faces_found := 12;
  box := (of_int 0, of_int 0, of_int 0, of_int 10, of_int 10, of_int 10);
  points := 16; cells := 1000
|}.

(** Two solids, of 1000 and 7 cubic millimetres. *)
Definition two_solids {F} {N : Num F} : Scene F := {|
  present := true; readable := true;
  solids_found := [(of_int 1000, (of_int 5, of_int 5, of_int 5));
                   (of_int 7, (of_int 20, of_int 20, of_int 20))];
  shells_found := [];
  faces_found := 12;
  box := (of_int 0, of_int 0, of_int 0, of_int 21, of_int 21, of_int 21);
  points := 16; cells := 1000
|}.

(** A file that transfers to a shape without any geometry. *)
Definition nothing {F} {N : Num F} : Scene F := {|
  present := true; readable := true;
  solids_found := []; shells_found := []; faces_found := 0;
  box := (of_int 0, of_int 0, of_int 0, of_int 0, of_int 0, of_int 0);
  points := 0; cells := 0
|}.

(** No file at the path. *)
Definition missing {F} {N : Num F} : Scene F := {|
  present := false; readable := false;
  solids_found := []; shells_found := []; faces_found := 0;
  box := (of_int 0, of_int 0, of_int 0, of_int 0, of_int 0, of_int 0);
  points := 0; cells := 0
|}.

(** A single voxel cell, and nothing that closes. *)
Definition one_cell {F} {N : Num F} : Scene F := {|
  present := true; readable := true;
  solids_found := []; shells_found := [None]; faces_found := 1;
  box := (of_int 0, of_int 0, of_int 0, of_int 1, of_int 1, of_int 1);
  points := 3; cells := 1
|}.

(** A flat sheet 2^700 mm on a side. *)
Definition vast_sheet {F} {N : Num F} : Scene F := {|
  present := true; readable := true;
  solids_found := []; shells_found := [None]; faces_found := 1;
  box := (of_int 0, of_int 0, of_int 0,
          of_int (2 ^ 700), of_int (2 ^ 700), of_int 0);
  points := 4; cells := 0
|}.

(** ** Vocabulary of the statements *)

(** The volume a voxel approximator returns, if it returns. *)
Definition returned_volume {F} {W : World F} {G : Type} (c : IO W (G * F))
  : option F :=
  option_map snd (value c).

(** The reverse conversion of the specification's unit round trip, from a
    unit back to cubic millimetres: a multiplication by the reciprocal of
    the forward factor. The scripts themselves only convert forward. *)
Definition spec_back_to_mm3 {F} {N : Num F} (vol : F) (u : unit_name) : F :=
  fmul vol (fdiv (of_int 1) (voxel1.UNIT_SCALE u)).

(** The command line with [--bbox] taken away. *)
Definition without_bbox {F} (args : @cal_fine.Args F) : @cal_fine.Args F := {|
  cal_fine.step := cal_fine.step args;
  cal_fine.tol := cal_fine.tol args;
  cal_fine.pitch := cal_fine.pitch args;
  cal_fine.unit_ := cal_fine.unit_ args;
  cal_fine.show := cal_fine.show args;
  cal_fine.bbox := false
|}.

Section HybridLog.
Context {F : Type} {N : Num F} (W : World F).

(** The lines of the exact branch of the hybrid [main]. *)
Definition solid_line (u : unit_name) (i : Z * F * (F * F * F)) : line F :=
  let '(idx, v, com) := i in
  [Txt "  • Solid "; Int idx; Txt ": "; Fix 6 v; Txt " ";
   Txt (unit_str u); Txt " (COM "; Tup3 com; Txt ")"].

Definition total_line (u : unit_name) (total : F) : line F :=
  [Txt "  Σ Total: "; Fix 6 total; Txt " "; Txt (unit_str u)].

(** What the exact branch does for a list of solids. *)
Definition exact_log (solids : list (TopoDS_Shape W)) (u : unit_name)
  : list (event W) :=
  let infos := entries W 0 solids (cal_fine.UNIT u) in
  map EVolumeProperties solids
  ++ [Stdout [Txt "[OK] closed solids found = ";
              Int (Z.of_nat (List.length infos))]]
  ++ map (fun i => Stdout (solid_line u i)) infos
  ++ [Stdout (total_line u (sum_from (of_int 0) (map volume_of infos)))].

(** The volume figures of the exact branch: the entries of
    [solids_volume] and its total. *)
Definition exact_reports (solids : list (TopoDS_Shape W)) (u : unit_name)
  : list (report F) :=
  let infos := entries W 0 solids (cal_fine.UNIT u) in
  map (fun i => RSolid (fst (fst i)) (snd (fst i)) (snd i)) infos
  ++ [RTotal (sum_from (of_int 0) (map volume_of infos))].

(** What the fallback does up to the voxelization, and after it. *)
Definition fallback_log (shape : TopoDS_Shape W) (pitch : F) : list (event W) :=
  [Stdout [Txt "[WARN] No closed solid after sewing. Falling back to voxel..."];
   ETempDir true; EWriteStl shape "t.stl"; EReadMesh "t.stl"; ETempDir false;
   ETriangulate; EVoxelize pitch].

Definition voxel_line (u : unit_name) (pitch vol : F) : line F :=
  [Txt "[Voxel] pitch="; Flt pitch; Txt " mm → "; Fix 6 vol; Txt " ";
   Txt (unit_str u)].

(** The log of the hybrid [main] before the reconstruction. *)
Definition opening_log (args : @cal_fine.Args F) : list (event W) :=
  let path := cal_fine.step args in
  let shape := TransferredShape W path in
  [Stdout [Txt "[READ] "; Txt path]; EReadFile path; ETransferRoots path]
  ++ (if cal_fine.bbox args
      then [EBndBox shape;
            Stdout [Txt "[BBox] volume = ";
                    Fix 6 (fmul (extents_product (BndGet W shape))
                                (cal_fine.UNIT (cal_fine.unit_ args)));
                    Txt " "; Txt (unit_str (cal_fine.unit_ args))]]
      else [])
  ++ [Stdout [Txt "[Sew] tol="; Flt (cal_fine.tol args); Txt " mm ..."]].
End HybridLog.

(** A decoded binary64 value that is not below zero: a zero, a positive
    number, plus infinity, or not a number. *)
Definition sf_nonneg (x : spec_float) : bool :=
  match x with
  | S754_nan | S754_zero _ => true
  | S754_infinity s | S754_finite s _ _ => negb s
  end.

(** A decoded binary64 value that is not above zero. *)
Definition sf_nonpos (x : spec_float) : bool :=
  match x with
  | S754_nan | S754_zero _ => true
  | S754_infinity s | S754_finite s _ _ => s
  end.

(** Nothing was loaded and the file system was left alone. *)
Definition untouched {F} {W : World F} (t : list (event W)) : bool :=
  forallb (fun e => negb (loads e || writes e)) t.

(** The command lines of the witnesses: the defaults of argparse. *)
Definition hybrid_defaults {F} {N : Num F} (path : string) : @cal_fine.Args F := {|
  cal_fine.step := path;
  cal_fine.tol := fdiv (of_int 5) (of_int 100);
  cal_fine.pitch := fdiv (of_int 1) (of_int 2);
  cal_fine.unit_ := cm3;
  cal_fine.show := false;
  cal_fine.bbox := false
|}.

Definition voxel1_defaults {F} {N : Num F} (path : string) : @voxel1.Args F := {|
  voxel1.step := path;
  voxel1.pitch := of_int 1;
  voxel1.unit_ := cm3;
  voxel1.show := false;
  voxel1.bbox := false
|}.

(** Two binary64 values differ when their decoded forms do. *)
Ltac float_neq :=
  let H := fresh in
  intro H; apply (f_equal Prim2SF) in H; vm_compute in H; discriminate H.

(** Runs [voxel1.main] under the equations in the context; [bbox_run] is
    the equation of its bounding-box helper. *)
Ltac run_voxel1_main bbox_run :=
  unfold voxel1.main, voxel1.read_step_shape, voxel1.shape_to_pv_mesh;
  cbv zeta;
  repeat match goal with
         | H : _ = _ |- _ => rewrite H
         end;
  simpl;
  match goal with
  | |- context [voxel1.bbox ?a] =>
      destruct (voxel1.bbox a); simpl;
      [rewrite bbox_run; simpl;
       match goal with
       | |- context [BndGet ?W ?s] =>
           destruct (BndGet W s) as [[[[[? ?] ?] ?] ?] ?]
       end; simpl|]
  | _ => idtac
  end;
  repeat match goal with
         | H : _ = _ |- _ => rewrite H
         end;
  simpl.

(** ** Further readings of a log *)

Section Files.
Context {F : Type} {W : World F}.

(** The STL files written, each with the shape it holds. *)
Definition written_files (t : list (event W)) : list (TopoDS_Shape W * string) :=
  flat_map (fun e => match e with EWriteStl sh f => [(sh, f)] | _ => [] end) t.

(** The mesh files read back. *)
Definition read_meshes (t : list (event W)) : list string :=
  flat_map (fun e => match e with EReadMesh f => [f] | _ => [] end) t.

(** The solids whose volume properties the kernel was asked for. *)
Definition volume_queries (t : list (event W)) : list (TopoDS_Shape W) :=
  flat_map (fun e => match e with EVolumeProperties s => [s] | _ => [] end) t.

(** Any use of the file system besides the STEP file: what [writes]
    covers, and reading a mesh file back. *)
Definition touches (e : event W) : bool :=
  writes e || match e with EReadMesh _ => true | _ => false end.

Definition file_system (t : list (event W)) : list (event W) := filter touches t.

(** What the face exporter does for one face and its file. *)
Definition export_face_log (item : TopoDS_Shape W * string) : list (event W) :=
  [EWriteStl (fst item) (snd item);
   Stdout [Txt (snd item); Txt " 저장 완료."]].

(** How many viewer windows were opened. *)
Definition viewers (t : list (event W)) : nat :=
  List.length (filter (fun e => match e with EShow => true | _ => false end) t).
End Files.

(** The name [export_step_faces_to_stl] gives to the file of face [i]. *)
Definition face_file (out_dir : string) (i : nat) : string :=
  test.path_join out_dir ("face_" ++ test.str_of_int (Z.of_nat i) ++ ".stl").


(** The command line of the hybrid tool with [--show] taken away. *)
Definition without_show {F} (args : @cal_fine.Args F) : @cal_fine.Args F := {|
  cal_fine.step := cal_fine.step args;
  cal_fine.tol := cal_fine.tol args;
  cal_fine.pitch := cal_fine.pitch args;
  cal_fine.unit_ := cal_fine.unit_ args;
  cal_fine.show := false;
  cal_fine.bbox := cal_fine.bbox args
|}.

Section Voxel1Log.
Context {F : Type} {N : Num F} (W : World F).

(** What [--bbox] adds to a run of [voxel1.main]. *)
Definition voxel1_box_log (args : @voxel1.Args F) : list (event W) :=
  let shape := TransferredShape W (voxel1.step args) in
  let '(xmin, ymin, zmin, xmax, ymax, zmax) := BndGet W shape in
  [EBndBox shape;
   Stdout [Txt nl; Txt "[Bounding Box]"];
   Stdout [Txt "  x: "; Fix 3 xmin; Txt " – "; Fix 3 xmax];
   Stdout [Txt "  y: "; Fix 3 ymin; Txt " – "; Fix 3 ymax];
   Stdout [Txt "  z: "; Fix 3 zmin; Txt " – "; Fix 3 zmax];
   Stdout [Txt "  Volume("; Txt (unit_str (voxel1.unit_ args)); Txt "): ";
           Fix 6 (voxel1.convert_volume (extents_product (BndGet W shape))
                                        (voxel1.unit_ args))]].

(** The log of [voxel1.main] up to the mesh, for a file that reads. *)
Definition voxel1_opening_log (args : @voxel1.Args F) : list (event W) :=
  let path := voxel1.step args in
  let shape := TransferredShape W path in
  [Stdout [Txt "[INFO] Reading STEP: "; Txt path];
   EReadFile path; ETransferRoots path]
  ++ (if voxel1.bbox args then voxel1_box_log args else [])
  ++ [Stdout [Txt "[INFO] Converting shape to mesh..."];
      ETempDir true; EWriteStl shape "tmp.stl"; EReadMesh "tmp.stl";
      ETempDir false].

(** The line of [voxel1.main] that carries the volume. *)
Definition voxel1_volume_line (u : unit_name) (vol : F) : line F :=
  [Txt "  Volume: "; Fix 6 vol; Txt " "; Txt (unit_str u)].

(** The lines that report the result of the voxelization. *)
Definition voxel1_result_log (args : @voxel1.Args F) (cube : F)
  : list (event W) :=
  let shape := TransferredShape W (voxel1.step args) in
  let vox := voxelize W (triangulate W (stl_mesh W shape)) (voxel1.pitch args) in
  [Stdout [Txt nl; Txt "[Voxel Volume Approximation]"];
   Stdout [Txt "  Pitch: "; Flt (voxel1.pitch args); Txt " (model units)"];
   Stdout [Txt "  Cells: "; Int (n_cells W vox)];
   Stdout (voxel1_volume_line (voxel1.unit_ args)
             (voxel1.convert_volume (fmul cube (of_int (n_cells W vox)))
                                    (voxel1.unit_ args)))]
  ++ (if voxel1.show args
      then [Stdout [Txt "[INFO] Launching viewer..."]; EShow] else []).
End Voxel1Log.

(** A file that is there and that the reader rejects. *)
Definition unreadable {F} {N : Num F} : Scene F := {|
  present := true; readable := false;
  solids_found := []; shells_found := []; faces_found := 0;
  box := (of_int 0, of_int 0, of_int 0, of_int 0, of_int 0, of_int 0);
  points := 0; cells := 0
|}.

(** * Properties *)

Open Scope list_scope.

(** ** The scripts at work, in binary64 *)

(** The closed cube at the defaults: one solid of 1 cm3, centred at
    (5, 5, 5), and the same total. *)
Example cube_is_exact :
  reports (trace (cal_fine.main (world_of (F := float) cube)
                                (hybrid_defaults "cube.step"))) =
    [RSolid 0 (of_int 1) (of_int 5, of_int 5, of_int 5); RTotal (of_int 1)].
Proof. reflexivity. Qed.

(** The open cube: 1000 cells at the pitch 0.5, that is 0.125 cm3. *)
Example open_cube_is_voxelized :
  reports (trace (cal_fine.main (world_of (F := float) open_cube)
                                (hybrid_defaults "open_cube.step"))) =
    [RVoxel (fdiv (of_int 1) (of_int 2)) (fdiv (of_int 1) (of_int 8))].
Proof. reflexivity. Qed.

(** Two shells of which one closes: both are tried, one solid comes back. *)
Example two_shells_one_solid :
  let sc := two_shells (F := float) in
  let props := (of_int 1000, (of_int 5, of_int 5, of_int 5)) in
  cal_fine.sewing_to_solids (world_of sc) (whole sc) (of_int 0) =
    ([ESewing (of_int 0) (whole sc); EExplore (whole sc) TopAbs_SOLID;
      EExplore (whole sc) TopAbs_SHELL;
      EMakeSolid (shell_of sc (Some props)); EMakeSolid (shell_of sc None)],
     Ret [solid_of sc props]).
Proof. reflexivity. Qed.

(** The stand-alone voxel tool on a file without geometry. *)
Example voxel1_refuses_nothing :
  result (voxel1.main (world_of (F := float) nothing)
                      (voxel1_defaults "nothing.step")) = SysExit 2.
Proof. reflexivity. Qed.

(** The face exporter on a shape of one face. *)
Example one_face_exported :
  let sc := one_cell (F := float) in
  filter writes
    (trace (test.main (world_of sc)
                      {| test.step := "part.step"; test.out := "faces_out" |})) =
    [EMakeDirs "faces_out"; EWriteStl (face_of sc 0) "faces_out/face_0.stl"].
Proof. reflexivity. Qed.

(** ** The monad *)

Section MonadFacts.
Context {F : Type} {W : World F}.

Lemma run_eta {A} (c : IO W A) : c = (trace c, result c).
Proof. destruct c; reflexivity. Qed.

Lemma stdout_app (t u : list (event W)) : stdout (t ++ u) = stdout t ++ stdout u.
Proof. apply flat_map_app. Qed.

Lemma stderr_app (t u : list (event W)) : stderr (t ++ u) = stderr t ++ stderr u.
Proof. apply flat_map_app. Qed.

Lemma voxel_pitches_app (t u : list (event W)) :
  voxel_pitches (t ++ u) = voxel_pitches t ++ voxel_pitches u.
Proof. apply flat_map_app. Qed.

Lemma reports_app (t u : list (event W)) : reports (t ++ u) = reports t ++ reports u.
Proof. unfold reports. rewrite stdout_app. apply flat_map_app. Qed.

End MonadFacts.

(** ** The exact reconstructor *)

Section Reconstructor.
Context {F : Type} {N : Num F} (W : World F).

Lemma append_all_app (items solids : list (TopoDS_Shape W)) :
  cal_fine.append_all W items solids = solids ++ items.
Proof.
  revert solids. induction items as [|x items IH]; intros solids; simpl.
  - now rewrite app_nil_r.
  - rewrite IH, <- app_assoc. reflexivity.
Qed.

Lemma shells_to_solids_run (shells solids : list (TopoDS_Shape W)) :
  cal_fine.shells_to_solids W shells solids =
    (map EMakeSolid shells, Ret (solids ++ closed_shells W shells)).
Proof.
  revert solids. induction shells as [|shell shells IH]; intros solids; simpl.
  - now rewrite app_nil_r.
  - destruct (MakeSolid W shell) as [solid|]; rewrite IH; simpl.
    + now rewrite <- app_assoc.
    + reflexivity.
Qed.

Lemma sewing_to_solids_run (shape : TopoDS_Shape W) (tol : F) :
  let sewed := SewedShape W tol shape in
  let direct := Explorer W sewed TopAbs_SOLID in
  let shells := Explorer W sewed TopAbs_SHELL in
  cal_fine.sewing_to_solids W shape tol =
    if nonempty direct
    then ([ESewing tol shape; EExplore sewed TopAbs_SOLID], Ret direct)
    else ([ESewing tol shape; EExplore sewed TopAbs_SOLID;
           EExplore sewed TopAbs_SHELL] ++ map EMakeSolid shells,
          Ret (closed_shells W shells)).
Proof.
  intros sewed direct shells. unfold cal_fine.sewing_to_solids. simpl.
  rewrite append_all_app. simpl. fold sewed. fold direct.
  destruct direct as [|d ds] eqn:E; simpl.
  - fold shells. rewrite shells_to_solids_run. reflexivity.
  - reflexivity.
Qed.

Lemma closed_shells_spec (shells : list (TopoDS_Shape W)) solid :
  In solid (closed_shells W shells) <->
  exists shell, In shell shells /\ MakeSolid W shell = Some solid.
Proof.
  unfold closed_shells. rewrite in_flat_map. split.
  - intros (shell & Hin & Hs). exists shell. split; [exact Hin|].
    destruct (MakeSolid W shell) as [s|]; simpl in Hs; [|contradiction].
    destruct Hs as [->|[]]. reflexivity.
  - intros (shell & Hin & Hs). exists shell. split; [exact Hin|].
    rewrite Hs. now left.
Qed.

(** C3. [sewing_to_solids] sews the shape at the given tolerance first and
    then enumerates the solids of the sewn result; [BRepBuilderAPI_MakeSolid]
    is tried, once per shell and in order, only when that enumeration found
    nothing; a shell contributes a solid exactly when its classification
    succeeds; the list returned holds either the solids found directly or
    the solids made from shells; and the call always returns a list, the
    empty one included, never an exception. *)
Theorem sewing_to_solids_reconstructs (shape : TopoDS_Shape W) (tol : F) :
  let sewed := SewedShape W tol shape in
  let direct := Explorer W sewed TopAbs_SOLID in
  let shells := Explorer W sewed TopAbs_SHELL in
  let run := cal_fine.sewing_to_solids W shape tol in
  (exists rest,
      trace run = ESewing tol shape :: EExplore sewed TopAbs_SOLID :: rest) /\
  make_solid_calls (trace run) = (if nonempty direct then [] else shells) /\
  result run = Ret (if nonempty direct then direct else closed_shells W shells) /\
  (forall solid, In solid (closed_shells W shells) <->
                 exists shell, In shell shells /\ MakeSolid W shell = Some solid).
Proof.
  intros sewed direct shells run.
  pose proof (sewing_to_solids_run shape tol) as H. cbv zeta in H.
  fold sewed direct shells run in H.
  destruct (nonempty direct) eqn:E; rewrite H; simpl.
  - repeat split; try apply closed_shells_spec. eexists; reflexivity.
  - repeat split; try apply closed_shells_spec.
    + eexists; reflexivity.
    + clear. induction shells as [|s l IH]; simpl; [reflexivity|].
      now rewrite IH.
Qed.

End Reconstructor.

(** ** Two laws of multiplication, in binary64 and in exact arithmetic *)

(** Multiplication of binary64 values is commutative. *)
Lemma float_mul_comm (x y : float) : PrimFloat.mul x y = PrimFloat.mul y x.
Proof.
  apply Prim2SF_inj. rewrite !mul_spec.
  destruct (Prim2SF x) as [sx|sx| |sx mx ex], (Prim2SF y) as [sy|sy| |sy my ey];
    simpl; try reflexivity; try (now rewrite xorb_comm).
  unfold SF64mul, SFmul. rewrite xorb_comm, Pos.mul_comm, Z.add_comm. reflexivity.
Qed.

(** Multiplying by 1.0 rounds nothing: the mantissa is shifted left by 52
    bits and back. *)
Lemma SF64mul_one (x : spec_float) :
  valid_binary x = true ->
  SF64mul x (S754_finite false 4503599627370496 (-52)) = x.
Proof.
  destruct x as [s|s| |s m e]; intros Hv; unfold SF64mul, SFmul;
    try (now rewrite xorb_false_r); try reflexivity.
  unfold valid_binary, SpecFloat.valid_binary, bounded, canonical_mantissa in Hv.
  apply andb_prop in Hv. destruct Hv as [Hc Hb].
  apply Z.eqb_eq in Hc.
  rewrite xorb_false_r, Pos.mul_comm.
  remember (4503599627370496 * m)%positive as M eqn:HM.
  assert (Hit : SpecFloat.iter_pos shr_1 52 (Build_shr_record (Z.pos M) false false)
                = Build_shr_record (Z.pos m) false false).
  { subst M. vm_compute. reflexivity. }
  assert (Hd : Z.pos (digits2_pos M) = Z.pos (digits2_pos m) + 52).
  { subst M.
    let t := eval vm_compute in (4503599627370496 * m)%positive in
    change (4503599627370496 * m)%positive with t.
    cbn [digits2_pos]. lia. }
  clear HM.
  unfold binary_round_aux, shr_fexp.
  unfold Zdigits2 at 1. rewrite Hd.
  replace (Z.pos (digits2_pos m) + 52 + (e + -52))
    with (Z.pos (digits2_pos m) + e) by lia.
  rewrite Hc.
  replace (e - (e + -52)) with 52 by lia.
  unfold shr, shr_record_of_loc. rewrite Hit.
  cbn [shr_m shr_r shr_s loc_of_shr_record round_nearest_even Zdigits2].
  replace (e + -52 + 52) with e by lia.
  rewrite Hc, Z.sub_diag. cbn [shr_m].
  now rewrite Hb.
Qed.

Lemma float_mul_one (x : float) : fmul x (of_int 1) = x.
Proof.
  change (PrimFloat.mul x 1 = x).
  apply Prim2SF_inj. rewrite mul_spec.
  change (Prim2SF 1) with (S754_finite false 4503599627370496 (-52)).
  apply SF64mul_one, Prim2SF_valid.
Qed.

Lemma binary64_mul_comm (x y : float) : fmul x y = fmul y x.
Proof. apply float_mul_comm. Qed.

Lemma exact_mul_one (x : Qc) : fmul x (of_int 1) = x.
Proof. change (x * 1 = x)%Qc. ring. Qed.

Lemma exact_mul_comm (x y : Qc) : fmul x y = fmul y x.
Proof. apply Qcmult_comm. Qed.

(** ** Signs in binary64 *)

(** Rounding keeps the sign it is given. *)
Lemma round_aux_sign (s : bool) (m e : Z) (l : location) :
  let r := binary_round_aux prec emax s m e l in
  r = S754_nan \/ r = S754_zero s \/ r = S754_infinity s \/
  exists m' e', r = S754_finite s m' e'.
Proof.
  unfold binary_round_aux.
  destruct (shr_fexp prec emax m e l) as [mrs' e'].
  destruct (shr_fexp prec emax _ e' loc_Exact) as [mrs'' e''].
  destruct (shr_m mrs'') as [|p|p]; auto.
  destruct (e'' <=? emax - prec); eauto 6.
Qed.

Lemma round_aux_nonneg (m e : Z) (l : location) :
  sf_nonneg (binary_round_aux prec emax false m e l) = true.
Proof.
  destruct (round_aux_sign false m e l) as [H|[H|[H|(m' & e' & H)]]];
    cbv zeta in H; rewrite H; reflexivity.
Qed.

Lemma round_aux_nonpos (m e : Z) (l : location) :
  sf_nonpos (binary_round_aux prec emax true m e l) = true.
Proof.
  destruct (round_aux_sign true m e l) as [H|[H|[H|(m' & e' & H)]]];
    cbv zeta in H; rewrite H; reflexivity.
Qed.

Lemma normalize_nonneg (z e : Z) :
  0 <= z -> sf_nonneg (binary_normalize prec emax z e false) = true.
Proof.
  intros Hz. destruct z as [|p|p]; [reflexivity| |lia].
  unfold binary_normalize, binary_round.
  destruct (shl_align p e _) as [mz ez]. apply round_aux_nonneg.
Qed.

Lemma SF64mul_nonneg (x y : spec_float) :
  sf_nonneg x = true -> sf_nonneg y = true -> sf_nonneg (SF64mul x y) = true.
Proof.
  unfold SF64mul, SFmul.
  destruct x as [sx|sx| |sx mx ex], y as [sy|sy| |sy my ey];
    cbn [sf_nonneg]; intros Hx Hy; try reflexivity;
    try (apply negb_true_iff in Hx; subst sx);
    try (apply negb_true_iff in Hy; subst sy);
    try reflexivity.
  apply round_aux_nonneg.
Qed.

Lemma SF64mul_nonpos_nonneg (x y : spec_float) :
  sf_nonpos x = true -> sf_nonneg y = true -> sf_nonpos (SF64mul x y) = true.
Proof.
  unfold SF64mul, SFmul.
  destruct x as [sx|sx| |sx mx ex], y as [sy|sy| |sy my ey];
    cbn [sf_nonneg sf_nonpos]; intros Hx Hy; try reflexivity;
    try subst sx;
    try (apply negb_true_iff in Hy; subst sy);
    try reflexivity.
  apply round_aux_nonpos.
Qed.

Lemma SF64mul_nonpos_nonpos (x y : spec_float) :
  sf_nonpos x = true -> sf_nonpos y = true -> sf_nonneg (SF64mul x y) = true.
Proof.
  unfold SF64mul, SFmul.
  destruct x as [sx|sx| |sx mx ex], y as [sy|sy| |sy my ey];
    cbn [sf_nonneg sf_nonpos]; intros Hx Hy; try reflexivity;
    try subst sx; try subst sy; try reflexivity.
  apply round_aux_nonneg.
Qed.

Lemma digits2_bounds (m : positive) :
  2 ^ (Z.pos (digits2_pos m) - 1) <= Z.pos m < 2 ^ Z.pos (digits2_pos m).
Proof.
  induction m as [p IH|p IH|]; cbn [digits2_pos].
  - rewrite Pos2Z.inj_succ, (Pos2Z.inj_xI p).
    replace (Z.succ (Z.pos (digits2_pos p)) - 1)
      with (Z.succ (Z.pos (digits2_pos p) - 1)) by lia.
    rewrite !Z.pow_succ_r by lia.
    generalize dependent (2 ^ (Z.pos (digits2_pos p) - 1)).
    generalize (2 ^ Z.pos (digits2_pos p)). intros; lia.
  - rewrite Pos2Z.inj_succ, (Pos2Z.inj_xO p).
    replace (Z.succ (Z.pos (digits2_pos p)) - 1)
      with (Z.succ (Z.pos (digits2_pos p) - 1)) by lia.
    rewrite !Z.pow_succ_r by lia.
    generalize dependent (2 ^ (Z.pos (digits2_pos p) - 1)).
    generalize (2 ^ Z.pos (digits2_pos p)). intros; lia.
  - simpl. lia.
Qed.

Lemma iter_xO_double (m d : positive) : 2 * Z.pos m <= Z.pos (Pos.iter xO m d).
Proof.
  induction d as [|d IH] using Pos.peano_ind.
  - simpl. lia.
  - rewrite Pos.iter_succ, (Pos2Z.inj_xO (Pos.iter xO m d)). lia.
Qed.

(** A canonical mantissa at a larger exponent dominates. *)
Lemma aligned_dominates (m1 : positive) (e1 : Z) (m2 : positive) (e2 : Z) :
  bounded prec emax m1 e1 = true ->
  bounded prec emax m2 e2 = true ->
  e2 < e1 ->
  Z.pos m2 <= Z.pos (fst (shl_align m1 e1 e2)).
Proof.
  unfold bounded, canonical_mantissa. intros H1 H2 Hlt.
  apply andb_prop in H1, H2. destruct H1 as [H1 _], H2 as [H2 _].
  apply Z.eqb_eq in H1, H2.
  unfold fexp, emin in H1, H2.
  change prec with 53 in *. change emax with 1024 in *.
  assert (Hd1 : Z.pos (digits2_pos m1) = 53) by lia.
  assert (Hd2 : Z.pos (digits2_pos m2) <= 53) by lia.
  pose proof (digits2_bounds m1) as B1. pose proof (digits2_bounds m2) as B2.
  rewrite Hd1 in B1.
  assert (Z.pos m2 < 2 ^ 53).
  { apply Z.lt_le_trans with (2 ^ Z.pos (digits2_pos m2)); [apply B2|].
    apply Z.pow_le_mono_r; lia. }
  change (2 ^ (53 - 1)) with 4503599627370496 in B1.
  change (2 ^ 53) with 9007199254740992 in *.
  unfold shl_align. destruct (e2 - e1) as [|d|d] eqn:E; try lia.
  cbn [fst]. pose proof (iter_xO_double m1 d). lia.
Qed.

Lemma shl_align_same (m : positive) (e : Z) : fst (shl_align m e e) = m.
Proof. unfold shl_align. now rewrite Z.sub_diag. Qed.

Lemma finite_sub_nonneg (sx : bool) (mx : positive) (ex : Z)
      (sy : bool) (my : positive) (ey : Z) :
  bounded prec emax mx ex = true ->
  bounded prec emax my ey = true ->
  SFleb (S754_finite sy my ey) (S754_finite sx mx ex) = true ->
  let ez := Z.min ex ey in
  0 <= cond_Zopp sx (Z.pos (fst (shl_align mx ex ez)))
       - cond_Zopp sy (Z.pos (fst (shl_align my ey ez))).
Proof.
  intros Bx By Hle ez. unfold SFleb, SFcompare in Hle.
  destruct sy, sx; cbn [cond_Zopp]; try discriminate Hle; [| lia |].
  - destruct (Z.compare_spec ey ex) as [E|E|E]; try discriminate Hle.
    + subst ey. unfold ez. rewrite Z.min_id, !shl_align_same.
      change (Pos.compare_cont Eq my mx) with (Pos.compare my mx) in Hle.
      destruct (Pos.compare_spec my mx) as [C|C|C]; try discriminate Hle; lia.
    + unfold ez. rewrite Z.min_l by lia. rewrite shl_align_same.
      pose proof (@aligned_dominates my ey mx ex By Bx E). lia.
  - destruct (Z.compare_spec ey ex) as [E|E|E]; try discriminate Hle.
    + subst ey. unfold ez. rewrite Z.min_id, !shl_align_same.
      change (Pos.compare_cont Eq my mx) with (Pos.compare my mx) in Hle.
      destruct (Pos.compare_spec my mx) as [C|C|C]; try discriminate Hle; lia.
    + unfold ez. rewrite Z.min_r by lia. rewrite shl_align_same.
      pose proof (@aligned_dominates mx ex my ey Bx By E). lia.
Qed.

Lemma SF64sub_nonneg (x y : spec_float) :
  valid_binary x = true -> valid_binary y = true ->
  SFleb y x = true ->
  sf_nonneg (SF64sub x y) = true.
Proof.
  intros Vx Vy Hle.
  destruct x as [sx|sx| |sx mx ex], y as [sy|sy| |sy my ey];
    try discriminate Hle; unfold SF64sub, SFsub; try reflexivity;
    try (destruct sx, sy; try discriminate Hle; reflexivity);
    try (destruct sx; try discriminate Hle; reflexivity);
    try (destruct sy; try discriminate Hle; reflexivity).
  apply normalize_nonneg.
  apply (@finite_sub_nonneg sx mx ex sy my ey Vx Vy Hle).
Qed.

Lemma float_sub_nonneg (x y : float) :
  PrimFloat.leb y x = true -> sf_nonneg (Prim2SF (PrimFloat.sub x y)) = true.
Proof.
  rewrite leb_spec, sub_spec. apply SF64sub_nonneg; apply Prim2SF_valid.
Qed.

Lemma float_mul_nonneg (x y : float) :
  sf_nonneg (Prim2SF x) = true -> sf_nonneg (Prim2SF y) = true ->
  sf_nonneg (Prim2SF (PrimFloat.mul x y)) = true.
Proof. rewrite mul_spec. apply SF64mul_nonneg. Qed.

Lemma nonneg_never_negative (v : float) :
  sf_nonneg (Prim2SF v) = true ->
  PrimFloat.ltb v 0 = false /\
  (PrimFloat.leb 0 v = true \/ PrimFloat.is_nan v = true).
Proof.
  unfold PrimFloat.is_nan. rewrite ltb_spec, leb_spec, FloatAxioms.eqb_spec.
  change (Prim2SF 0) with (S754_zero false).
  destruct (Prim2SF v) as [s|s| |s m e]; cbn [sf_nonneg]; intros H;
    try (apply negb_true_iff in H; subst s); split; auto.
Qed.

Lemma float_mul_nonpos_nonneg (x y : float) :
  sf_nonpos (Prim2SF x) = true -> sf_nonneg (Prim2SF y) = true ->
  sf_nonpos (Prim2SF (PrimFloat.mul x y)) = true.
Proof. rewrite mul_spec. apply SF64mul_nonpos_nonneg. Qed.

Lemma float_mul_nonpos_nonpos (x y : float) :
  sf_nonpos (Prim2SF x) = true -> sf_nonpos (Prim2SF y) = true ->
  sf_nonneg (Prim2SF (PrimFloat.mul x y)) = true.
Proof. rewrite mul_spec. apply SF64mul_nonpos_nonpos. Qed.

Lemma leb_zero_nonpos (x : float) :
  PrimFloat.leb x 0 = true -> sf_nonpos (Prim2SF x) = true.
Proof.
  rewrite leb_spec. change (Prim2SF 0) with (S754_zero false).
  destruct (Prim2SF x) as [s|s| |s m e]; cbn [sf_nonpos]; try reflexivity;
    destruct s; try reflexivity; discriminate.
Qed.

Lemma nonpos_never_positive (v : float) :
  sf_nonpos (Prim2SF v) = true ->
  PrimFloat.ltb 0 v = false /\
  (PrimFloat.leb v 0 = true \/ PrimFloat.is_nan v = true).
Proof.
  unfold PrimFloat.is_nan. rewrite ltb_spec, leb_spec, FloatAxioms.eqb_spec.
  change (Prim2SF 0) with (S754_zero false).
  destruct (Prim2SF v) as [s|s| |s m e]; cbn [sf_nonpos]; intros H;
    try subst s; split; auto.
Qed.

Lemma float_of_Z_nonneg (z : Z) :
  0 <= z < 9223372036854775808 ->
  sf_nonneg (Prim2SF (float_of_Z z)) = true.
Proof.
  intros Hz. unfold float_of_Z.
  replace ((0 <=? z) && (z <? 9223372036854775808)) with true
    by (symmetry; apply andb_true_iff; split; [apply Z.leb_le | apply Z.ltb_lt]; lia).
  rewrite of_uint63_spec, Uint63.of_Z_spec.
  rewrite Z.mod_small by (change Uint63.wB with 9223372036854775808; lia).
  apply normalize_nonneg. lia.
Qed.

(** ** Volumes of the solids *)

Section SolidVolumes.
Context {F : Type} {N : Num F} (W : World F).

Lemma solids_volume_loop_run idx (solids : list (TopoDS_Shape W)) s results total :
  cal_fine.solids_volume_loop W idx solids s results total =
    (map EVolumeProperties solids,
     Ret (results ++ entries W idx solids s,
          sum_from total (map volume_of (entries W idx solids s)))).
Proof.
  revert idx results total.
  induction solids as [|solid rest IH]; intros idx results total; simpl.
  - now rewrite app_nil_r.
  - rewrite IH. simpl. now rewrite <- app_assoc.
Qed.

Lemma solids_volume_run (solids : list (TopoDS_Shape W)) s :
  cal_fine.solids_volume W solids s =
    (map EVolumeProperties solids,
     Ret (entries W 0 solids s,
          sum_from (of_int 0) (map volume_of (entries W 0 solids s)))).
Proof. unfold cal_fine.solids_volume. now rewrite solids_volume_loop_run. Qed.

Lemma entries_indices idx (solids : list (TopoDS_Shape W)) s :
  map (fun i => fst (fst i)) (entries W idx solids s) =
  map (fun k => idx + Z.of_nat k) (seq 0 (List.length solids)).
Proof.
  revert idx. induction solids as [|solid rest IH]; intros idx; simpl.
  - reflexivity.
  - rewrite IH, <- seq_shift, map_map. f_equal; [lia|].
    apply map_ext. intros k. lia.
Qed.

Lemma entries_volumes idx (solids : list (TopoDS_Shape W)) s :
  map volume_of (entries W idx solids s) =
  map (fun solid => fmul (Mass W solid) s) solids.
Proof.
  revert idx. induction solids as [|solid rest IH]; intros idx; simpl.
  - reflexivity.
  - now rewrite IH.
Qed.

Lemma entries_centres idx (solids : list (TopoDS_Shape W)) s :
  map snd (entries W idx solids s) = map (CentreOfMass W) solids.
Proof.
  revert idx. induction solids as [|solid rest IH]; intros idx; simpl.
  - reflexivity.
  - now rewrite IH.
Qed.

Lemma solids_volume_entries (solids : list (TopoDS_Shape W)) (unit_scale : F) :
  exists infos total,
    result (cal_fine.solids_volume W solids unit_scale) = Ret (infos, total) /\
    total = sum_from (of_int 0) (map volume_of infos) /\
    map (fun i => fst (fst i)) infos =
      map Z.of_nat (seq 0 (List.length solids)) /\
    map volume_of infos =
      map (fun solid => fmul (Mass W solid) unit_scale) solids /\
    map snd infos = map (CentreOfMass W) solids.
Proof.
  eexists _, _. rewrite solids_volume_run. simpl.
  split; [reflexivity|]. split; [reflexivity|].
  rewrite entries_indices, entries_volumes, entries_centres.
  repeat split; reflexivity.
Qed.

(** Where multiplication is commutative and 1.0 is its unit, the volumes
    at scale 1.0 are the kernel's and the volumes at scale [s] are [s]
    times those. *)
Lemma solids_volume_scaled_entries
    (fmul_comm : forall x y : F, fmul x y = fmul y x)
    (fmul_one : forall x : F, fmul x (of_int 1) = x)
    (solids : list (TopoDS_Shape W)) (s : F) :
  exists infos total infos1 total1,
    result (cal_fine.solids_volume W solids s) = Ret (infos, total) /\
    result (cal_fine.solids_volume W solids (of_int 1)) = Ret (infos1, total1) /\
    map volume_of infos = map (fun v => fmul s v) (map volume_of infos1) /\
    map volume_of infos1 = map (Mass W) solids.
Proof.
  eexists _, _, _, _. rewrite !solids_volume_run. unfold result. cbn [snd].
  split; [reflexivity|]. split; [reflexivity|].
  rewrite !entries_volumes.
  assert (H1 : map (fun solid => fmul (Mass W solid) (of_int 1)) solids
               = map (Mass W) solids).
  { apply map_ext. intros x. apply fmul_one. }
  rewrite H1. split; [|reflexivity].
  rewrite map_map. apply map_ext. intros x. apply fmul_comm.
Qed.

End SolidVolumes.

(** C4. [solids_volume] returns one entry per solid, in the order of the
    list and numbered 0, 1, 2, ...; the volume of an entry is the kernel's
    [Mass()] times the unit scale, whatever its sign, and its centre is the
    kernel's [CentreOfMass()]; the total is the sum of the entries'
    volumes, added in that order starting from 0.0. At the scale 1.0 the
    volumes are the kernel's own figures, in binary64 as in exact
    arithmetic. *)
Theorem solids_volume_total :
  (forall F (N : Num F) (W : World F) (solids : list (TopoDS_Shape W))
          (unit_scale : F),
      exists infos total,
        result (cal_fine.solids_volume W solids unit_scale) = Ret (infos, total) /\
        total = sum_from (of_int 0) (map volume_of infos) /\
        map (fun i => fst (fst i)) infos =
          map Z.of_nat (seq 0 (List.length solids)) /\
        map volume_of infos =
          map (fun solid => fmul (Mass W solid) unit_scale) solids /\
        map snd infos = map (CentreOfMass W) solids) /\
  (forall (W : World float) (solids : list (TopoDS_Shape W)),
      exists infos total,
        result (cal_fine.solids_volume W solids (of_int 1)) = Ret (infos, total) /\
        map volume_of infos = map (Mass W) solids) /\
  (forall (W : World Qc) (solids : list (TopoDS_Shape W)),
      exists infos total,
        result (cal_fine.solids_volume W solids (of_int 1)) = Ret (infos, total) /\
        map volume_of infos = map (Mass W) solids).
Proof.
  split; [|split].
  - intros F N W solids unit_scale. apply solids_volume_entries.
  - intros W solids.
    destruct (solids_volume_scaled_entries W binary64_mul_comm float_mul_one
                solids (of_int 1)) as (_ & _ & infos & total & _ & H & _ & H1).
    exists infos, total. split; assumption.
  - intros W solids.
    destruct (solids_volume_scaled_entries W exact_mul_comm exact_mul_one
                solids (of_int 1)) as (_ & _ & infos & total & _ & H & _ & H1).
    exists infos, total. split; assumption.
Qed.

(** In exact arithmetic a sum of scaled terms is the scaled sum. *)
Lemma sum_from_scaled (s t : Qc) (xs : list Qc) :
  sum_from (t * s)%Qc (map (fun x => (x * s)%Qc) xs) = (s * sum_from t xs)%Qc.
Proof.
  revert t. induction xs as [|x xs IH]; intros t; unfold sum_from in *; simpl.
  - ring.
  - rewrite <- IH. f_equal. ring.
Qed.

(** C9, as stated, fails in binary64: for solids of 1000 and 7 cubic
    millimetres and the cm3 factor, the total returned
    (1.0069999999999999) is not the factor times the sum of the two kernel
    volumes (1.0070000000000001). *)
Lemma solids_volume_scale_rounds :
  let W := world_of (F := float) two_solids in
  let solids := Explorer W Whole TopAbs_SOLID in
  let s := cal_fine.UNIT cm3 in
  exists infos total,
    result (cal_fine.solids_volume W solids s) = Ret (infos, total) /\
    total <> fmul s (sum_from (of_int 0) (map (Mass W) solids)).
Proof.
  eexists _, _. split; [reflexivity|]. float_neq.
Qed.

(** C9, amended. In every arithmetic each entry's volume is the kernel's
    volume times the scale and the total is the running sum of these
    scaled volumes. In binary64 as in exact arithmetic, each volume at
    scale [s] is [s] times the volume at scale 1, which is the kernel's
    volume. In exact arithmetic the scaling also commutes with the sum:
    the total is [s] times the sum of the kernel's volumes, that is [s]
    times the total at scale 1. *)
Theorem solids_volume_scale_exact :
  (forall F (N : Num F) (W : World F) (solids : list (TopoDS_Shape W)) (s : F),
      exists infos total,
        result (cal_fine.solids_volume W solids s) = Ret (infos, total) /\
        map volume_of infos = map (fun solid => fmul (Mass W solid) s) solids /\
        total = sum_from (of_int 0) (map volume_of infos)) /\
  (forall (W : World float) (solids : list (TopoDS_Shape W)) (s : float),
      exists infos total infos1 total1,
        result (cal_fine.solids_volume W solids s) = Ret (infos, total) /\
        result (cal_fine.solids_volume W solids (of_int 1)) = Ret (infos1, total1) /\
        map volume_of infos = map (fun v => fmul s v) (map volume_of infos1) /\
        map volume_of infos1 = map (Mass W) solids) /\
  (forall (W : World Qc) (solids : list (TopoDS_Shape W)) (s : Qc),
      exists infos total infos1 total1,
        result (cal_fine.solids_volume W solids s) = Ret (infos, total) /\
        result (cal_fine.solids_volume W solids (of_int 1)) = Ret (infos1, total1) /\
        map volume_of infos = map (fun v => fmul s v) (map volume_of infos1) /\
        map volume_of infos1 = map (Mass W) solids /\
        total = fmul s (sum_from (of_int 0) (map (Mass W) solids)) /\
        total = fmul s total1).
Proof.
  split; [|split].
  - intros F N W solids s. eexists _, _. rewrite solids_volume_run. simpl.
    split; [reflexivity|]. rewrite entries_volumes. split; reflexivity.
  - intros W solids s.
    apply (solids_volume_scaled_entries W binary64_mul_comm float_mul_one).
  - intros W solids s. eexists _, _, _, _. rewrite !solids_volume_run. simpl.
    split; [reflexivity|]. split; [reflexivity|].
    rewrite !entries_volumes.
    change (Q2Qc (inject_Z 0)) with 0%Qc. change (Q2Qc (inject_Z 1)) with 1%Qc.
    change (@fmul Qc exact) with Qcmult.
    assert (Hs : sum_from 0%Qc (map (fun solid => (Mass W solid * s)%Qc) solids)
                 = (s * sum_from 0%Qc (map (Mass W) solids))%Qc).
    { rewrite <- (map_map (Mass W) (fun x => (x * s)%Qc)).
      rewrite <- sum_from_scaled. f_equal. ring. }
    assert (H1 : map (fun solid => (Mass W solid * 1)%Qc) solids
                 = map (Mass W) solids).
    { apply map_ext. intros x. ring. }
    repeat split.
    + rewrite map_map. apply map_ext. intros x. ring.
    + exact H1.
    + exact Hs.
    + rewrite H1. exact Hs.
Qed.

(** ** Order and sign in exact arithmetic *)

Lemma Qc_leb_le (x y : Qc) : Qc_leb x y = true <-> (x <= y)%Qc.
Proof. unfold Qc_leb, Qcle. apply Qle_bool_iff. Qed.

Lemma Qc_ltb_lt (x y : Qc) : Qc_ltb x y = true <-> (x < y)%Qc.
Proof.
  unfold Qc_ltb, Qclt. rewrite negb_true_iff, <- not_true_iff_false, Qle_bool_iff.
  split; [apply Qnot_le_lt | apply Qlt_not_le].
Qed.

Lemma Qc_mul_nonneg (x y : Qc) : (0 <= x -> 0 <= y -> 0 <= x * y)%Qc.
Proof.
  intros Hx Hy. replace 0%Qc with (0 * y)%Qc by ring.
  now apply Qcmult_le_compat_r.
Qed.

Lemma Qc_mul_nonpos_nonneg (x y : Qc) : (x <= 0 -> 0 <= y -> x * y <= 0)%Qc.
Proof.
  intros Hx Hy. replace 0%Qc with (0 * y)%Qc by ring.
  now apply Qcmult_le_compat_r.
Qed.

Lemma Qc_mul_neg_pos (x y : Qc) : (x < 0 -> 0 < y -> x * y < 0)%Qc.
Proof.
  intros Hx Hy. replace 0%Qc with (0 * y)%Qc by ring.
  now apply Qcmult_lt_compat_r.
Qed.

Lemma Qc_square_nonneg (x : Qc) : (0 <= x * x)%Qc.
Proof.
  destruct (Qclt_le_dec x 0) as [Hneg|Hpos].
  - replace (x * x)%Qc with ((- x) * (- x))%Qc by ring.
    assert (0 <= - x)%Qc.
    { replace 0%Qc with (- 0)%Qc by ring.
      apply Qcopp_le_compat. now apply Qclt_le_weak. }
    now apply Qc_mul_nonneg.
  - now apply Qc_mul_nonneg.
Qed.

Lemma Qc_square_pos (x : Qc) : (x < 0 -> 0 < x * x)%Qc.
Proof.
  intros Hx. replace (x * x)%Qc with ((- x) * (- x))%Qc by ring.
  assert (H : (0 < - x)%Qc).
  { apply Qclt_minus_iff in Hx. now replace (0 + - x)%Qc with (- x)%Qc in Hx by ring. }
  replace 0%Qc with (0 * - x)%Qc by ring.
  now apply Qcmult_lt_compat_r.
Qed.

Lemma Qc_cube (x : Qc) : (x ^ 3 = x * (x * x))%Qc.
Proof. simpl. ring. Qed.

Lemma Qc_cube_nonpos (x : Qc) : (x <= 0 -> x ^ 3 <= 0)%Qc.
Proof.
  intros Hx. rewrite Qc_cube. apply Qc_mul_nonpos_nonneg; [exact Hx|].
  apply Qc_square_nonneg.
Qed.

Lemma Qc_cube_neg (x : Qc) : (x < 0 -> x ^ 3 < 0)%Qc.
Proof.
  intros Hx. rewrite Qc_cube. apply Qc_mul_neg_pos; [exact Hx|].
  now apply Qc_square_pos.
Qed.

Lemma Qc_of_int_nonneg (z : Z) : 0 <= z -> (0 <= Q2Qc (inject_Z z))%Qc.
Proof.
  intros Hz. unfold Qcle.
  change (this (Q2Qc (inject_Z z))) with (Qred (inject_Z z)).
  rewrite Qred_correct. unfold Qle. simpl. lia.
Qed.

Lemma Qc_of_int_pos (z : Z) : 0 < z -> (0 < Q2Qc (inject_Z z))%Qc.
Proof.
  intros Hz. unfold Qclt.
  change (this (Q2Qc (inject_Z z))) with (Qred (inject_Z z)).
  rewrite Qred_correct. unfold Qlt. simpl. lia.
Qed.

(** ** The voxel approximators *)

Section Voxels.
Context {F : Type} {N : Num F} (W : World F).

Lemma voxel_volume_run (mesh : PolyData W) (pitch : F) :
  let vox := voxelize W (triangulate W mesh) pitch in
  cal_fine.voxel_volume W mesh pitch =
    ([ETriangulate; EVoxelize pitch],
     match fpow pitch 3 with
     | Some cube => Ret (vox, fmul (of_int (n_cells W vox)) cube)
     | None => OverflowError
     end).
Proof.
  unfold cal_fine.voxel_volume, power. simpl.
  destruct (fpow pitch 3); reflexivity.
Qed.

Lemma voxel_volume_mm3_run (mesh : PolyData W) (pitch : F) :
  let vox := voxelize W (triangulate W mesh) pitch in
  voxel1.voxel_volume_mm3 W mesh pitch =
    ([ETriangulate; EVoxelize pitch],
     match fpow pitch 3 with
     | Some cube => Ret (vox, fmul cube (of_int (n_cells W vox)))
     | None => OverflowError
     end).
Proof.
  unfold voxel1.voxel_volume_mm3, power. simpl.
  destruct (fpow pitch 3); reflexivity.
Qed.

Lemma voxel2_volume_run (step_path : string) (pitch unit_scale : F) :
  let vox := voxelize W (step_mesh W step_path) pitch in
  voxel2.voxel_volume W step_path pitch unit_scale =
    ([EReadStepFile step_path;
      Stdout [Txt "[INFO] Voxelizing with pitch="; Flt pitch; Txt "mm ..."];
      EVoxelize pitch],
     match fpow pitch 3 with
     | Some cube =>
         Ret (fmul (fmul (of_int (n_cells W vox)) cube) unit_scale, vox)
     | None => OverflowError
     end).
Proof.
  unfold voxel2.voxel_volume, power. simpl.
  destruct (fpow pitch 3); reflexivity.
Qed.

End Voxels.

(** C5, as stated, fails for [voxel2.voxel_volume]: on a grid of 1000
    cells at pitch 1 and with the cm3 factor that [main] passes by
    default, the volume returned is 1.0, not 1000 cells times 1 cubed. *)
Lemma voxel2_volume_is_scaled :
  let W := world_of (F := float) cube in
  let pitch := of_int 1 in
  exists vol vox,
    result (voxel2.voxel_volume W "cube.step" pitch
                                (voxel2.unit_scale_table cm3)) = Ret (vol, vox) /\
    fpow pitch 3 = Some (of_int 1) /\
    n_cells W vox = 1000 /\
    vol <> fmul (of_int (n_cells W vox)) (of_int 1).
Proof.
  eexists _, _. split; [reflexivity|]. split; [reflexivity|].
  split; [reflexivity|]. float_neq.
Qed.

(** C5, amended. Whenever the cube of the pitch does not overflow,
    [cal_fine.voxel_volume] returns the grid's cell count times the cube
    and [voxel1.voxel_volume_mm3] the cube times the cell count, the same
    number in binary64 and in exact arithmetic; [voxel2.voxel_volume]
    returns that product multiplied by its [unit_scale] argument, which
    is the product itself when the argument is 1.0. When the cube
    overflows each of the three raises [OverflowError]. *)
Theorem voxel_volume_formulas :
  (forall F (N : Num F) (W : World F) (mesh : PolyData W) (pitch : F),
      let vox := voxelize W (triangulate W mesh) pitch in
      result (cal_fine.voxel_volume W mesh pitch) =
        match fpow pitch 3 with
        | Some cube => Ret (vox, fmul (of_int (n_cells W vox)) cube)
        | None => OverflowError
        end /\
      result (voxel1.voxel_volume_mm3 W mesh pitch) =
        match fpow pitch 3 with
        | Some cube => Ret (vox, fmul cube (of_int (n_cells W vox)))
        | None => OverflowError
        end) /\
  (forall F (N : Num F) (W : World F) (path : string) (pitch unit_scale : F),
      let vox := voxelize W (step_mesh W path) pitch in
      result (voxel2.voxel_volume W path pitch unit_scale) =
        match fpow pitch 3 with
        | Some cube =>
            Ret (fmul (fmul (of_int (n_cells W vox)) cube) unit_scale, vox)
        | None => OverflowError
        end) /\
  (forall (W : World float) (mesh : PolyData W) (pitch : float),
      returned_volume (voxel1.voxel_volume_mm3 W mesh pitch) =
      returned_volume (cal_fine.voxel_volume W mesh pitch)) /\
  (forall (W : World Qc) (mesh : PolyData W) (pitch : Qc),
      returned_volume (voxel1.voxel_volume_mm3 W mesh pitch) =
      returned_volume (cal_fine.voxel_volume W mesh pitch)) /\
  (forall (W : World float) (path : string) (pitch : float),
      let vox := voxelize W (step_mesh W path) pitch in
      result (voxel2.voxel_volume W path pitch (of_int 1)) =
        match fpow pitch 3 with
        | Some cube => Ret (fmul (of_int (n_cells W vox)) cube, vox)
        | None => OverflowError
        end) /\
  (forall (W : World Qc) (path : string) (pitch : Qc),
      let vox := voxelize W (step_mesh W path) pitch in
      result (voxel2.voxel_volume W path pitch (of_int 1)) =
        match fpow pitch 3 with
        | Some cube => Ret (fmul (of_int (n_cells W vox)) cube, vox)
        | None => OverflowError
        end).
Proof.
  split; [|split; [|split; [|split; [|split]]]].
  - intros F N W mesh pitch vox.
    rewrite voxel_volume_run, voxel_volume_mm3_run. split; reflexivity.
  - intros F N W path pitch unit_scale vox.
    rewrite voxel2_volume_run. reflexivity.
  - intros W mesh pitch.
    rewrite voxel_volume_run, voxel_volume_mm3_run.
    unfold returned_volume, value, result. simpl.
    destruct (float_pow pitch 3); simpl; [|reflexivity].
    now rewrite float_mul_comm.
  - intros W mesh pitch.
    rewrite voxel_volume_run, voxel_volume_mm3_run.
    unfold returned_volume, value, result. simpl.
    now rewrite Qcmult_comm.
  - intros W path pitch vox. rewrite voxel2_volume_run. unfold result. cbn [snd].
    destruct (fpow pitch 3); [|reflexivity]. now rewrite float_mul_one.
  - intros W path pitch vox. rewrite voxel2_volume_run. unfold result. cbn [snd].
    destruct (fpow pitch 3); [|reflexivity]. now rewrite exact_mul_one.
Qed.

Lemma binary64_cube_nonpos (x : float) :
  sf_nonpos (Prim2SF x) = true -> sf_nonpos (Prim2SF (float_mul_pow x 3)) = true.
Proof.
  intros H. change (float_mul_pow x 3) with (PrimFloat.mul x (PrimFloat.mul x x)).
  apply float_mul_nonpos_nonneg; [exact H|].
  now apply float_mul_nonpos_nonpos.
Qed.

Lemma binary64_voxel_volume_never_positive
    (W : World float) (mesh : PolyData W) (pitch vol : float) :
  let vox := voxelize W (triangulate W mesh) pitch in
  fleb pitch (of_int 0) = true ->
  0 <= n_cells W vox < 9223372036854775808 ->
  returned_volume (cal_fine.voxel_volume W mesh pitch) = Some vol ->
  fltb (of_int 0) vol = false /\
  (fleb vol (of_int 0) = true \/ PrimFloat.is_nan vol = true).
Proof.
  intros vox Hp Hn. rewrite voxel_volume_run.
  unfold returned_volume, value, result. cbn [snd]. fold vox.
  change (@fpow float binary64) with float_pow. unfold float_pow.
  destruct (PrimFloat.is_finite pitch && _); cbn [option_map snd];
    [discriminate|].
  intros E. injection E as <-.
  apply (nonpos_never_positive
           (PrimFloat.mul (float_of_Z (n_cells W vox)) (float_mul_pow pitch 3))).
  rewrite float_mul_comm. apply float_mul_nonpos_nonneg.
  - apply binary64_cube_nonpos, leb_zero_nonpos. exact Hp.
  - apply float_of_Z_nonneg. exact Hn.
Qed.

(** C10, as stated, fails in binary64. With the pitch -2^700 the cube
    overflows and the volume formula itself raises [OverflowError]; with
    the negative pitch -2^-400 and a grid of one cell the cube underflows
    and the volume returned is -0.0, which is not below zero. *)
Lemma voxel_volume_power_overflows :
  let W := world_of (F := float) one_cell in
  let mesh := stl_mesh W Whole in
  let huge := of_int (- 2 ^ 700) in
  let tiny := fdiv (of_int (-1)) (of_int (2 ^ 400)) in
  (fleb huge (of_int 0) = true /\
   result (cal_fine.voxel_volume W mesh huge) = OverflowError) /\
  (fltb tiny (of_int 0) = true /\
   exists vox vol,
     result (cal_fine.voxel_volume W mesh tiny) = Ret (vox, vol) /\
     Z.odd (n_cells W vox) = true /\
     fltb vol (of_int 0) = false).
Proof.
  split; split; try reflexivity.
  eexists _, _. repeat split; reflexivity.
Qed.

(** C10, amended. Neither [cal_fine.voxel_volume] nor
    [voxel1.voxel_volume_mm3] checks its pitch: whatever the pitch, the
    mesh is triangulated and voxelized at it, and the only possible error
    of the volume formula is the overflow of the cube. In exact arithmetic
    there is no such error and, for a pitch at most 0 and a cell count at
    least 0, the volume returned is the cell count times the cube of the
    pitch, at most 0, and below 0 when the pitch is negative and the count
    odd. In binary64, for a pitch at most 0 and a cell count from 0 to
    2^63, a volume that is returned is never above 0: it is at most 0 or
    not a number. *)
Theorem voxel_volume_unguarded :
  (forall F (N : Num F) (W : World F) (mesh : PolyData W) (pitch : F),
      trace (cal_fine.voxel_volume W mesh pitch) = [ETriangulate; EVoxelize pitch] /\
      trace (voxel1.voxel_volume_mm3 W mesh pitch) = [ETriangulate; EVoxelize pitch] /\
      (forall msg, result (cal_fine.voxel_volume W mesh pitch) <> RuntimeError msg) /\
      (forall code, result (cal_fine.voxel_volume W mesh pitch) <> SysExit code) /\
      (result (cal_fine.voxel_volume W mesh pitch) = OverflowError <->
       fpow pitch 3 = None) /\
      (result (voxel1.voxel_volume_mm3 W mesh pitch) = OverflowError <->
       fpow pitch 3 = None)) /\
  (forall (W : World Qc) (mesh : PolyData W) (pitch : Qc),
      let vox := voxelize W (triangulate W mesh) pitch in
      fleb pitch (of_int 0) = true ->
      0 <= n_cells W vox ->
      exists vol,
        result (cal_fine.voxel_volume W mesh pitch) = Ret (vox, vol) /\
        result (voxel1.voxel_volume_mm3 W mesh pitch) = Ret (vox, vol) /\
        vol = (of_int (n_cells W vox) * pitch ^ 3)%Qc /\
        fleb vol (of_int 0) = true /\
        (fltb pitch (of_int 0) = true -> Z.odd (n_cells W vox) = true ->
         fltb vol (of_int 0) = true)) /\
  (forall (W : World float) (mesh : PolyData W) (pitch vol : float),
      let vox := voxelize W (triangulate W mesh) pitch in
      fleb pitch (of_int 0) = true ->
      0 <= n_cells W vox < 9223372036854775808 ->
      returned_volume (cal_fine.voxel_volume W mesh pitch) = Some vol ->
      returned_volume (voxel1.voxel_volume_mm3 W mesh pitch) = Some vol /\
      fltb (of_int 0) vol = false /\
      (fleb vol (of_int 0) = true \/ PrimFloat.is_nan vol = true)).
Proof.
  split; [|split].
  - intros F N W mesh pitch.
    rewrite voxel_volume_run, voxel_volume_mm3_run. unfold trace, result. simpl.
    destruct (fpow pitch 3); repeat split; try discriminate; reflexivity.
  - intros W mesh pitch vox Hp Hn.
    exists (of_int (n_cells W vox) * pitch ^ 3)%Qc.
    rewrite voxel_volume_run, voxel_volume_mm3_run. unfold result. simpl.
    fold vox. change (Q2Qc (inject_Z 0)) with 0%Qc in *.
    apply Qc_leb_le in Hp.
    split; [reflexivity|]. split; [now rewrite Qcmult_comm|].
    split; [reflexivity|]. split.
    + apply Qc_leb_le. rewrite Qcmult_comm.
      apply Qc_mul_nonpos_nonneg; [now apply Qc_cube_nonpos|].
      now apply Qc_of_int_nonneg.
    + intros Hlt Hodd. apply Qc_ltb_lt in Hlt. apply Qc_ltb_lt.
      rewrite Qcmult_comm.
      apply Qc_mul_neg_pos; [now apply Qc_cube_neg|].
      apply Qc_of_int_pos.
      destruct (Z.eq_dec (n_cells W vox) 0) as [E|E]; [|lia].
      rewrite E in Hodd. discriminate.
  - intros W mesh pitch vol vox Hp Hn Hv. split.
    + rewrite <- Hv. rewrite voxel_volume_run, voxel_volume_mm3_run.
      unfold returned_volume, value, result. cbn [snd].
      destruct (fpow pitch 3); cbn [option_map snd]; [|reflexivity].
      now rewrite binary64_mul_comm.
    + exact (@binary64_voxel_volume_never_positive W mesh pitch vol Hp Hn Hv).
Qed.

(** ** The hybrid pipeline *)

Section Hybrid.
Context {F : Type} {N : Num F} (W : World F).

Lemma bbox_volume_mm3_run (shape : TopoDS_Shape W) :
  cal_fine.bbox_volume_mm3 W shape =
    ([EBndBox shape], Ret (BndGet W shape, extents_product (BndGet W shape))).
Proof.
  unfold cal_fine.bbox_volume_mm3, extents_product. simpl.
  destruct (BndGet W shape) as [[[[[xmin ymin] zmin] xmax] ymax] zmax].
  reflexivity.
Qed.

Lemma for_each_solid_lines (u : unit_name) (infos : list (Z * F * (F * F * F))) :
  for_each infos (fun '(idx, v, com) =>
    print (W := W)
          [Txt "  • Solid "; Int idx; Txt ": "; Fix 6 v; Txt " ";
           Txt (unit_str u); Txt " (COM "; Tup3 com; Txt ")"]) =
  (map (fun i => Stdout (solid_line u i)) infos, Ret tt).
Proof.
  induction infos as [|[[idx v] com] infos IH]; simpl; [reflexivity|].
  rewrite IH. reflexivity.
Qed.

Lemma main_run (args : @cal_fine.Args F) :
  path_exists W (cal_fine.step args) = true ->
  ReadFile W (cal_fine.step args) = IFSelect_RetDone ->
  let shape := TransferredShape W (cal_fine.step args) in
  let u := cal_fine.unit_ args in
  let pitch := cal_fine.pitch args in
  let vox := voxelize W (triangulate W (stl_mesh W shape)) pitch in
  forall tsew solids,
    cal_fine.sewing_to_solids W shape (cal_fine.tol args) = (tsew, Ret solids) ->
    cal_fine.main W args =
      if nonempty solids
      then (opening_log W args ++ tsew ++ exact_log W solids u, Ret tt)
      else match fpow pitch 3 with
           | Some cube =>
               (opening_log W args ++ tsew ++ fallback_log W shape pitch
                ++ [Stdout (voxel_line u pitch
                              (fmul (fmul (of_int (n_cells W vox)) cube)
                                    (cal_fine.UNIT u)))]
                ++ (if cal_fine.show args then [EShow] else []),
                Ret tt)
           | None =>
               (opening_log W args ++ tsew ++ fallback_log W shape pitch,
                OverflowError)
           end.
Proof.
  intros Hex Hread shape u pitch vox tsew solids Hsew.
  unfold cal_fine.main, cal_fine.read_step_shape. rewrite Hex. simpl.
  rewrite Hread. simpl. fold shape.
  unfold opening_log, exact_log, fallback_log.
  assert (Hbox : when (cal_fine.bbox args)
            (x <- cal_fine.bbox_volume_mm3 W shape;;
             (let (p, bbox_mm3) := x in
              let (p0, _) := p in
              let (p1, _) := p0 in
              let (p2, _) := p1 in
              let (p3, _) := p2 in
              let (_, _) := p3 in
              print
                [Txt "[BBox] volume = ";
                 Fix 6 (fmul bbox_mm3 (cal_fine.UNIT (cal_fine.unit_ args)));
                 Txt " "; Txt (unit_str (cal_fine.unit_ args))]))
          = (if cal_fine.bbox args
             then [EBndBox shape;
                   Stdout [Txt "[BBox] volume = ";
                           Fix 6 (fmul (extents_product (BndGet W shape))
                                       (cal_fine.UNIT (cal_fine.unit_ args)));
                           Txt " "; Txt (unit_str (cal_fine.unit_ args))]]
             else [], Ret tt)).
  { destruct (cal_fine.bbox args); simpl; [|reflexivity].
    rewrite bbox_volume_mm3_run. simpl.
    destruct (BndGet W shape) as [[[[[xmin ymin] zmin] xmax] ymax] zmax].
    reflexivity. }
  rewrite Hbox. clear Hbox. simpl. rewrite Hsew. simpl.
  destruct (nonempty solids) eqn:Hne.
  - rewrite solids_volume_run. simpl. rewrite for_each_solid_lines. simpl.
    rewrite <- !app_assoc. reflexivity.
  - rewrite voxel_volume_run. simpl. fold pitch. fold vox.
    destruct (fpow pitch 3) as [cube|]; simpl;
      try destruct (cal_fine.show args); simpl;
      rewrite <- ?app_assoc; reflexivity.
Qed.

End Hybrid.

Section HybridObservations.
Context {F : Type} {N : Num F} (W : World F).

Lemma sewing_log_silent (shape : TopoDS_Shape W) (tol : F) :
  let t := trace (cal_fine.sewing_to_solids W shape tol) in
  stdout t = [] /\ stderr t = [] /\ voxel_pitches t = [].
Proof.
  pose proof (sewing_to_solids_run W shape tol) as H. cbv zeta in H.
  cbv zeta. rewrite H. clear H.
  destruct (nonempty _); simpl; [repeat split; reflexivity|].
  induction (Explorer W (SewedShape W tol shape) TopAbs_SHELL) as [|s l IH];
    simpl; [repeat split; reflexivity | exact IH].
Qed.

Lemma opening_log_silent (args : @cal_fine.Args F) :
  reports (opening_log W args) = [] /\
  stderr (opening_log W args) = [] /\
  voxel_pitches (opening_log W args) = [].
Proof.
  unfold opening_log, reports. destruct (cal_fine.bbox args); simpl;
    repeat split; reflexivity.
Qed.

Lemma reports_solid_lines (u : unit_name) (infos : list (Z * F * (F * F * F))) :
  reports (W := W) (map (fun i => Stdout (solid_line u i)) infos) =
  map (fun i => RSolid (fst (fst i)) (snd (fst i)) (snd i)) infos.
Proof.
  induction infos as [|[[idx v] com] infos IH]; [reflexivity|].
  change (map (fun i => Stdout (solid_line u i)) ((idx, v, com) :: infos))
    with ([Stdout (W := W) (solid_line u (idx, v, com))]
          ++ map (fun i => Stdout (solid_line u i)) infos).
  rewrite reports_app, IH. reflexivity.
Qed.

Lemma silent_kernel_calls (solids : list (TopoDS_Shape W)) :
  stdout (map (@EVolumeProperties F W) solids) = [] /\
  stderr (map (@EVolumeProperties F W) solids) = [] /\
  voxel_pitches (map (@EVolumeProperties F W) solids) = [].
Proof.
  induction solids as [|s l IH]; simpl; [repeat split; reflexivity | exact IH].
Qed.

Lemma exact_log_reports (solids : list (TopoDS_Shape W)) (u : unit_name) :
  reports (exact_log W solids u) = exact_reports W solids u /\
  stderr (exact_log W solids u) = [] /\
  voxel_pitches (exact_log W solids u) = [].
Proof.
  unfold exact_log, exact_reports.
  destruct (silent_kernel_calls solids) as (Ho & He & Hv).
  repeat split.
  - rewrite !reports_app, reports_solid_lines. unfold reports at 1.
    rewrite Ho. reflexivity.
  - rewrite !stderr_app, He. simpl.
    induction (entries W 0 solids (cal_fine.UNIT u)) as [|i l IH];
      [reflexivity | exact IH].
  - rewrite !voxel_pitches_app, Hv. simpl.
    induction (entries W 0 solids (cal_fine.UNIT u)) as [|i l IH];
      [reflexivity | exact IH].
Qed.

Lemma fallback_log_voxelizes (shape : TopoDS_Shape W) (pitch : F) :
  reports (fallback_log W shape pitch) = [] /\
  stderr (fallback_log W shape pitch) = [] /\
  voxel_pitches (fallback_log W shape pitch) = [pitch].
Proof. repeat split; reflexivity. Qed.

(** What [main] reports and voxelizes, by the emptiness of the list the
    reconstruction returned. *)
Lemma main_observed (args : @cal_fine.Args F) :
  path_exists W (cal_fine.step args) = true ->
  ReadFile W (cal_fine.step args) = IFSelect_RetDone ->
  let shape := TransferredShape W (cal_fine.step args) in
  let u := cal_fine.unit_ args in
  let pitch := cal_fine.pitch args in
  let vox := voxelize W (triangulate W (stl_mesh W shape)) pitch in
  let run := cal_fine.main W args in
  forall solids,
    result (cal_fine.sewing_to_solids W shape (cal_fine.tol args)) = Ret solids ->
    stderr (trace run) = [] /\
    if nonempty solids
    then reports (trace run) = exact_reports W solids u /\
         voxel_pitches (trace run) = [] /\
         result run = Ret tt
    else voxel_pitches (trace run) = [pitch] /\
         match fpow pitch 3 with
         | Some cube =>
             reports (trace run) =
               [RVoxel pitch (fmul (fmul (of_int (n_cells W vox)) cube)
                                   (cal_fine.UNIT u))] /\
             result run = Ret tt
         | None => reports (trace run) = [] /\ result run = OverflowError
         end.
Proof.
  intros Hex Hread shape u pitch vox run solids Hsew.
  pose proof (@main_run _ _ W args Hex Hread) as Hrun. cbv zeta in Hrun.
  specialize (Hrun (trace (cal_fine.sewing_to_solids W shape (cal_fine.tol args)))
                   solids).
  rewrite <- Hsew in Hrun. rewrite <- run_eta in Hrun.
  specialize (Hrun eq_refl). fold shape u pitch vox run in Hrun.
  destruct (sewing_log_silent shape (cal_fine.tol args)) as (So & Se & Sv).
  destruct (opening_log_silent args) as (Oo & Oe & Ov).
  destruct (exact_log_reports solids u) as (Xo & Xe & Xv).
  destruct (fallback_log_voxelizes shape pitch) as (Fo & Fe & Fv).
  cbv zeta in So, Se, Sv.
  assert (Sr : reports (trace (cal_fine.sewing_to_solids W shape (cal_fine.tol args))) = []).
  { unfold reports. now rewrite So. }
  destruct (nonempty solids).
  - rewrite Hrun. unfold trace, result. cbn [fst snd].
    rewrite !stderr_app, !reports_app, !voxel_pitches_app.
    fold (trace (cal_fine.sewing_to_solids W shape (cal_fine.tol args))).
    rewrite Oo, Oe, Ov, Sr, Se, Sv, Xo, Xe, Xv. repeat split; reflexivity.
  - destruct (fpow pitch 3) as [cube|]; rewrite Hrun; unfold trace, result;
      cbn [fst snd];
      rewrite !stderr_app, !reports_app, !voxel_pitches_app;
      fold (trace (cal_fine.sewing_to_solids W shape (cal_fine.tol args)));
      rewrite Oo, Oe, Ov, Sr, Se, Sv, Fo, Fe, Fv;
      destruct (cal_fine.show args); repeat split; reflexivity.
Qed.

End HybridObservations.

Section HybridClaims.
Context {F : Type} {N : Num F} (W : World F).

Lemma sewing_to_solids_returns (shape : TopoDS_Shape W) (tol : F) :
  exists solids, result (cal_fine.sewing_to_solids W shape tol) = Ret solids.
Proof.
  pose proof (sewing_to_solids_run W shape tol) as H. cbv zeta in H.
  rewrite H. destruct (nonempty _); eexists; reflexivity.
Qed.

(** C1. In a run of the hybrid [main] that loaded its shape, let [solids]
    be the list the reconstruction returned. The exact figures (one entry
    per solid and the total of [solids_volume]) are what the run reports if
    and only if [solids] is not empty; the voxelizer is run if and only if
    [solids] is empty, and then exactly once, at the pitch of the command
    line; with a non-empty list it is not run at all. *)
Theorem main_exact_xor_voxel (args : @cal_fine.Args F) :
  path_exists W (cal_fine.step args) = true ->
  ReadFile W (cal_fine.step args) = IFSelect_RetDone ->
  let shape := TransferredShape W (cal_fine.step args) in
  let u := cal_fine.unit_ args in
  let pitch := cal_fine.pitch args in
  let vox := voxelize W (triangulate W (stl_mesh W shape)) pitch in
  let run := cal_fine.main W args in
  exists solids,
    result (cal_fine.sewing_to_solids W shape (cal_fine.tol args)) = Ret solids /\
    (solids <> [] <-> reports (trace run) = exact_reports W solids u) /\
    (solids <> [] <-> voxel_pitches (trace run) = []) /\
    (solids = [] <-> voxel_pitches (trace run) = [pitch]) /\
    (solids = [] -> forall cube, fpow pitch 3 = Some cube ->
       reports (trace run) =
         [RVoxel pitch (fmul (fmul (of_int (n_cells W vox)) cube)
                             (cal_fine.UNIT u))]).
Proof.
  intros Hex Hread shape u pitch vox run.
  destruct (sewing_to_solids_returns shape (cal_fine.tol args)) as [solids Hs].
  exists solids. split; [exact Hs|].
  pose proof (@main_observed _ _ W args Hex Hread solids Hs) as [_ H].
  fold shape u pitch vox run in H.
  destruct solids as [|s l]; simpl in H.
  - destruct H as [Hv H]. rewrite Hv.
    split; [|split; [|split]].
    + split; [congruence|]. intros E.
      destruct (fpow pitch 3); destruct H as [H _]; rewrite H in E; discriminate E.
    + split; [congruence | discriminate].
    + split; reflexivity.
    + intros _ cube Hc. rewrite Hc in H. apply H.
  - destruct H as (Hr & Hv & _). rewrite Hr, Hv.
    split; [|split; [|split]].
    + split; [reflexivity | discriminate].
    + split; [reflexivity | discriminate].
    + split; discriminate.
    + discriminate.
Qed.

(** The hybrid [main] never looks at the number of points of the mesh: with
    no solid it voxelizes whatever mesh was read back. *)
Lemma hybrid_empty_mesh (args : @cal_fine.Args F) (cube : F) :
  path_exists W (cal_fine.step args) = true ->
  ReadFile W (cal_fine.step args) = IFSelect_RetDone ->
  let shape := TransferredShape W (cal_fine.step args) in
  let u := cal_fine.unit_ args in
  let pitch := cal_fine.pitch args in
  let vox := voxelize W (triangulate W (stl_mesh W shape)) pitch in
  let run := cal_fine.main W args in
  result (cal_fine.sewing_to_solids W shape (cal_fine.tol args)) = Ret [] ->
  n_points W (stl_mesh W shape) = 0 ->
  fpow pitch 3 = Some cube ->
  result run = Ret tt /\
  exit_code run = 0 /\
  stderr (trace run) = [] /\
  voxel_pitches (trace run) = [pitch] /\
  reports (trace run) =
    [RVoxel pitch (fmul (fmul (of_int (n_cells W vox)) cube) (cal_fine.UNIT u))].
Proof.
  intros Hex Hread shape u pitch vox run Hs _ Hc.
  pose proof (@main_observed _ _ W args Hex Hread [] Hs) as [He H].
  fold shape u pitch vox run in H, He. simpl in H. rewrite Hc in H.
  destruct H as (Hv & Hr & Hres).
  unfold exit_code. rewrite Hres. repeat split; assumption.
Qed.

End HybridClaims.

(** ** How the tools end *)

Section Endings.
Context {F : Type} {N : Num F} (W : World F).

Lemma hybrid_missing (args : @cal_fine.Args F) :
  path_exists W (cal_fine.step args) = false ->
  cal_fine.main W args = ([Stderr [Txt "STEP file not found."]], SysExit 1).
Proof. intros H. unfold cal_fine.main. rewrite H. reflexivity. Qed.

Lemma hybrid_unreadable (args : @cal_fine.Args F) :
  path_exists W (cal_fine.step args) = true ->
  is_RetDone (ReadFile W (cal_fine.step args)) = false ->
  cal_fine.main W args =
    ([Stdout [Txt "[READ] "; Txt (cal_fine.step args)];
      EReadFile (cal_fine.step args)],
     RuntimeError [Txt "STEP read failed: "; Txt (cal_fine.step args)]).
Proof.
  intros H1 H2. unfold cal_fine.main, cal_fine.read_step_shape.
  rewrite H1. simpl. rewrite H2. reflexivity.
Qed.

Lemma hybrid_endings (args : @cal_fine.Args F) :
  let r := result (cal_fine.main W args) in
  r = Ret tt \/ r = SysExit 1 \/ r = OverflowError \/ exists msg, r = RuntimeError msg.
Proof.
  destruct (path_exists W (cal_fine.step args)) eqn:Hex.
  - destruct (is_RetDone (ReadFile W (cal_fine.step args))) eqn:Hread.
    + assert (Hd : ReadFile W (cal_fine.step args) = IFSelect_RetDone).
      { destruct (ReadFile W (cal_fine.step args)); try discriminate; reflexivity. }
      destruct (sewing_to_solids_returns W (TransferredShape W (cal_fine.step args))
                                         (cal_fine.tol args)) as [solids Hs].
      pose proof (@main_observed _ _ W args Hex Hd solids Hs) as [_ H].
      cbv zeta. destruct (nonempty solids).
      * left. apply H.
      * destruct H as [_ H]. destruct (fpow (cal_fine.pitch args) 3).
        -- left. apply H.
        -- right. right. left. apply H.
    + cbv zeta. rewrite (hybrid_unreadable args Hex Hread).
      right. right. right. eexists. reflexivity.
  - cbv zeta. rewrite (hybrid_missing args Hex). right. left. reflexivity.
Qed.

Lemma voxel1_missing (args : @voxel1.Args F) :
  path_exists W (voxel1.step args) = false ->
  voxel1.main W args =
    ([Stderr [Txt "STEP file not found: "; Txt (voxel1.step args)]], SysExit 1).
Proof. intros H. unfold voxel1.main. rewrite H. reflexivity. Qed.

Lemma shape_bbox_mm3_run (shape : TopoDS_Shape W) :
  voxel1.shape_bbox_mm3 W shape =
    ([EBndBox shape], Ret (BndGet W shape, extents_product (BndGet W shape))).
Proof.
  unfold voxel1.shape_bbox_mm3, extents_product. simpl.
  destruct (BndGet W shape) as [[[[[xmin ymin] zmin] xmax] ymax] zmax].
  reflexivity.
Qed.

(** When the mesh read back has zero points, [voxel1.main] says so on the
    error stream and exits with status 2, without voxelizing. *)
Lemma voxel1_empty_mesh (args : @voxel1.Args F) :
  path_exists W (voxel1.step args) = true ->
  ReadFile W (voxel1.step args) = IFSelect_RetDone ->
  n_points W (stl_mesh W (TransferredShape W (voxel1.step args))) = 0 ->
  let run := voxel1.main W args in
  result run = SysExit 2 /\
  exit_code run = 2 /\
  stderr (trace run) = [[Txt "ERROR: Empty mesh extracted."]] /\
  voxel_pitches (trace run) = [].
Proof.
  intros Hex Hread Hn. run_voxel1_main shape_bbox_mm3_run; repeat split; reflexivity.
Qed.

Lemma voxel1_endings (args : @voxel1.Args F) :
  let r := result (voxel1.main W args) in
  r = Ret tt \/ r = SysExit 1 \/ r = SysExit 2 \/ r = OverflowError \/
  exists msg, r = RuntimeError msg.
Proof.
  destruct (path_exists W (voxel1.step args)) eqn:Hex;
    [|cbv zeta; rewrite (voxel1_missing args Hex); right; left; reflexivity].
  destruct (ReadFile W (voxel1.step args)) eqn:Hread;
    try (unfold voxel1.main, voxel1.read_step_shape; cbv zeta;
         rewrite Hex; simpl; rewrite Hread; simpl;
         right; right; right; right; eexists; reflexivity).
  destruct (n_points W (stl_mesh W (TransferredShape W (voxel1.step args))) =? 0)
    eqn:Hn.
  - run_voxel1_main shape_bbox_mm3_run; right; right; left; reflexivity.
  - run_voxel1_main shape_bbox_mm3_run; rewrite voxel_volume_mm3_run; simpl;
      destruct (fpow (voxel1.pitch args) 3); simpl;
      try destruct (voxel1.show args); simpl; auto.
Qed.

Lemma voxel2_empty_mesh (args : @voxel2.Args F) (cube : F) :
  path_exists W (voxel2.step args) = true ->
  n_points W (step_mesh W (voxel2.step args)) = 0 ->
  fpow (voxel2.pitch args) 3 = Some cube ->
  let run := voxel2.main W args in
  result run = Ret tt /\
  exit_code run = 0 /\
  stderr (trace run) = [] /\
  voxel_pitches (trace run) = [voxel2.pitch args].
Proof.
  intros Hex _ Hc. unfold voxel2.main. cbv zeta. rewrite Hex. simpl.
  rewrite voxel2_volume_run. cbv zeta. rewrite Hc. simpl.
  unfold exit_code, result.
  destruct (voxel2.view args); repeat split; reflexivity.
Qed.

(** C2. A shape whose mesh has zero points: the stand-alone voxel tool
    [voxel1.main] reports "Empty mesh extracted." on the error stream and
    exits with status 2, which is not the status 1 of a missing file, and
    does not voxelize. The hybrid [cal_fine.main], once the reconstruction
    has returned no solid, and [voxel2.main] have no such check: they
    voxelize the empty mesh, write nothing on the error stream, report the
    volume of whatever grid comes back and return, so that the process
    ends with status 0. *)
Theorem empty_mesh_reported_by_voxel1_only :
  (forall args : @voxel1.Args F,
      path_exists W (voxel1.step args) = true ->
      ReadFile W (voxel1.step args) = IFSelect_RetDone ->
      n_points W (stl_mesh W (TransferredShape W (voxel1.step args))) = 0 ->
      let run := voxel1.main W args in
      result run = SysExit 2 /\ exit_code run = 2 /\ exit_code run <> 1 /\
      stderr (trace run) = [[Txt "ERROR: Empty mesh extracted."]] /\
      voxel_pitches (trace run) = []) /\
  (forall (args : @cal_fine.Args F) (cube : F),
      path_exists W (cal_fine.step args) = true ->
      ReadFile W (cal_fine.step args) = IFSelect_RetDone ->
      let shape := TransferredShape W (cal_fine.step args) in
      let pitch := cal_fine.pitch args in
      let vox := voxelize W (triangulate W (stl_mesh W shape)) pitch in
      let run := cal_fine.main W args in
      result (cal_fine.sewing_to_solids W shape (cal_fine.tol args)) = Ret [] ->
      n_points W (stl_mesh W shape) = 0 ->
      fpow pitch 3 = Some cube ->
      result run = Ret tt /\ exit_code run = 0 /\
      stderr (trace run) = [] /\
      voxel_pitches (trace run) = [pitch] /\
      reports (trace run) =
        [RVoxel pitch (fmul (fmul (of_int (n_cells W vox)) cube)
                            (cal_fine.UNIT (cal_fine.unit_ args)))]) /\
  (forall (args : @voxel2.Args F) (cube : F),
      path_exists W (voxel2.step args) = true ->
      n_points W (step_mesh W (voxel2.step args)) = 0 ->
      fpow (voxel2.pitch args) 3 = Some cube ->
      let run := voxel2.main W args in
      result run = Ret tt /\ exit_code run = 0 /\
      stderr (trace run) = [] /\
      voxel_pitches (trace run) = [voxel2.pitch args]).
Proof.
  split; [|split].
  - intros args Hex Hread Hn run.
    destruct (voxel1_empty_mesh args Hex Hread Hn) as (H1 & H2 & H3 & H4).
    fold run in H1, H2, H3, H4. rewrite H2. repeat split; try assumption.
    discriminate.
  - intros args cube Hex Hread shape pitch vox run Hs Hn Hc.
    exact (@hybrid_empty_mesh _ _ W args cube Hex Hread Hs Hn Hc).
  - intros args cube Hex Hn Hc. exact (voxel2_empty_mesh args Hex Hn Hc).
Qed.

End Endings.

(** ** A missing input file *)

Section MissingFile.
Context {F : Type} {N : Num F} (W : World F).

Lemma voxel2_missing (args : @voxel2.Args F) :
  path_exists W (voxel2.step args) = false ->
  voxel2.main W args =
    ([Stdout [Txt "[ERROR] STEP 파일이 존재하지 않습니다: "; Txt (voxel2.step args)]],
     SysExit 1).
Proof. intros H. unfold voxel2.main. cbv zeta. rewrite H. reflexivity. Qed.

Lemma cal_box_missing (args : cal_box.Args) :
  path_exists W (cal_box.step args) = false ->
  cal_box.main W args =
    ([Stdout [Txt "입력 STEP 파일이 존재하지 않습니다: "; Txt (cal_box.step args)]],
     SysExit 1).
Proof. intros H. unfold cal_box.main. cbv zeta. rewrite H. reflexivity. Qed.

Lemma test_missing (args : test.Args) :
  path_exists W (test.step args) = false ->
  test.main W args =
    ([Stdout [Txt "입력 STEP 파일이 존재하지 않습니다: "; Txt (test.step args)]],
     SysExit 1).
Proof. intros H. unfold test.main. cbv zeta. rewrite H. reflexivity. Qed.

Lemma exit_0_returns_hybrid (args : @cal_fine.Args F) :
  exit_code (cal_fine.main W args) = 0 <-> result (cal_fine.main W args) = Ret tt.
Proof.
  unfold exit_code.
  destruct (hybrid_endings W args) as [H|[H|[H|[msg H]]]]; cbv zeta in H;
    rewrite H; split; intros E; try discriminate E; reflexivity.
Qed.

Lemma exit_0_returns_voxel1 (args : @voxel1.Args F) :
  exit_code (voxel1.main W args) = 0 <-> result (voxel1.main W args) = Ret tt.
Proof.
  unfold exit_code.
  destruct (voxel1_endings W args) as [H|[H|[H|[H|[msg H]]]]]; cbv zeta in H;
    rewrite H; split; intros E; try discriminate E; reflexivity.
Qed.

(** C8. When the path given with [--step] does not exist, each tool ends
    by [sys.exit(1)]: the process status is 1, no STEP file has been read
    or transferred, and no file or directory has been written. A run of
    the hybrid tool or of the stand-alone voxel tool ends with status 0
    exactly when its [main] returns. *)
Theorem missing_step_exits_1 :
  (forall args : @cal_fine.Args F,
      path_exists W (cal_fine.step args) = false ->
      let run := cal_fine.main W args in
      result run = SysExit 1 /\ exit_code run = 1 /\ untouched (trace run) = true) /\
  (forall args : @voxel1.Args F,
      path_exists W (voxel1.step args) = false ->
      let run := voxel1.main W args in
      result run = SysExit 1 /\ exit_code run = 1 /\ untouched (trace run) = true) /\
  (forall args : @voxel2.Args F,
      path_exists W (voxel2.step args) = false ->
      let run := voxel2.main W args in
      result run = SysExit 1 /\ exit_code run = 1 /\ untouched (trace run) = true) /\
  (forall args : cal_box.Args,
      path_exists W (cal_box.step args) = false ->
      let run := cal_box.main W args in
      result run = SysExit 1 /\ exit_code run = 1 /\ untouched (trace run) = true) /\
  (forall args : test.Args,
      path_exists W (test.step args) = false ->
      let run := test.main W args in
      result run = SysExit 1 /\ exit_code run = 1 /\ untouched (trace run) = true) /\
  (forall args : @cal_fine.Args F,
      exit_code (cal_fine.main W args) = 0 <->
      result (cal_fine.main W args) = Ret tt) /\
  (forall args : @voxel1.Args F,
      exit_code (voxel1.main W args) = 0 <->
      result (voxel1.main W args) = Ret tt).
Proof.
  repeat apply conj.
  - intros args H. cbv zeta. rewrite (hybrid_missing W args H).
    repeat split; reflexivity.
  - intros args H. cbv zeta. rewrite (voxel1_missing W args H).
    repeat split; reflexivity.
  - intros args H. cbv zeta. rewrite (voxel2_missing args H).
    repeat split; reflexivity.
  - intros args H. cbv zeta. rewrite (cal_box_missing args H).
    repeat split; reflexivity.
  - intros args H. cbv zeta. rewrite (test_missing args H).
    repeat split; reflexivity.
  - apply exit_0_returns_hybrid.
  - apply exit_0_returns_voxel1.
Qed.

End MissingFile.

(** ** Unit conversion *)

(** C6, as stated, fails in binary64: 9 cubic millimetres converted to
    cm3 and multiplied back by the reciprocal of the cm3 factor give
    9.000000000000002; dividing by the factor instead does not repair the
    round trip, 1001 comes back as 1000.9999999999999. *)
Lemma unit_round_trip_rounds :
  let v : float := of_int 9 in
  let w : float := of_int 1001 in
  spec_back_to_mm3 (voxel1.convert_volume v cm3) cm3 <> v /\
  fdiv (voxel1.convert_volume w cm3) (voxel1.UNIT_SCALE cm3) <> w.
Proof. cbv zeta. split; float_neq. Qed.

(** C6, amended. The four tools use one table of factors: 1.0 for mm3,
    the quotient 1/1000 for cm3 and the quotient 1/1000000000 for m3; in
    exact arithmetic these are the numbers 1, 1/1000 and 1/10^9. The
    reciprocal of the cm3 factor is 1000, in binary64 as in exact
    arithmetic. In exact arithmetic a volume converted to any unit and
    multiplied back by the reciprocal of the unit's factor, or divided by
    the factor, is the volume one started from. *)
Theorem unit_factors_and_round_trip :
  (forall F (N : Num F) (u : unit_name),
      cal_fine.UNIT u = voxel1.UNIT_SCALE u /\
      voxel2.unit_scale_table u = voxel1.UNIT_SCALE u /\
      cal_box.scale_table u = voxel1.UNIT_SCALE u) /\
  (forall F (N : Num F),
      voxel1.UNIT_SCALE mm3 = of_int 1 /\
      voxel1.UNIT_SCALE cm3 = fdiv (of_int 1) (of_int 1000) /\
      voxel1.UNIT_SCALE m3 = fdiv (of_int 1) (of_int 1000000000)) /\
  (@voxel1.UNIT_SCALE Qc exact mm3 = Q2Qc 1 /\
   @voxel1.UNIT_SCALE Qc exact cm3 = Q2Qc (1 # 1000) /\
   @voxel1.UNIT_SCALE Qc exact m3 = Q2Qc (1 # 1000000000)) /\
  fdiv (of_int 1) (@voxel1.UNIT_SCALE float binary64 cm3) = of_int 1000 /\
  fdiv (of_int 1) (@voxel1.UNIT_SCALE Qc exact cm3) = of_int 1000 /\
  (forall (v : Qc) (u : unit_name),
      spec_back_to_mm3 (voxel1.convert_volume v u) u = v /\
      fdiv (voxel1.convert_volume v u) (voxel1.UNIT_SCALE u) = v).
Proof.
  split; [|split; [|split; [|split; [|split]]]].
  - intros F N u. destruct u; repeat split; reflexivity.
  - intros F N. repeat split; reflexivity.
  - repeat split; apply Qc_is_canon; reflexivity.
  - reflexivity.
  - apply Qc_is_canon. reflexivity.
  - intros v u. unfold spec_back_to_mm3, voxel1.convert_volume.
    change (@fmul Qc exact) with Qcmult. change (@fdiv Qc exact) with Qcdiv.
    change (@of_int Qc exact 1) with 1%Qc.
    assert (Hu : voxel1.UNIT_SCALE (F := Qc) u <> 0%Qc).
    { destruct u; intros E; apply (f_equal this) in E; vm_compute in E;
        discriminate E. }
    split; field; exact Hu.
Qed.

(** ** The bounding box *)

Section BoundingBox.
Context {F : Type} {N : Num F} (W : World F).

Lemma bbox_calls_app (t u : list (event W)) :
  bbox_calls (t ++ u) = bbox_calls t ++ bbox_calls u.
Proof. apply flat_map_app. Qed.

Lemma sewing_log_boxless (shape : TopoDS_Shape W) (tol : F) :
  bbox_calls (trace (cal_fine.sewing_to_solids W shape tol)) = [].
Proof.
  pose proof (sewing_to_solids_run W shape tol) as H. cbv zeta in H.
  rewrite H. clear H.
  destruct (nonempty _); simpl; [reflexivity|].
  induction (Explorer W (SewedShape W tol shape) TopAbs_SHELL) as [|s l IH];
    simpl; [reflexivity | exact IH].
Qed.

Lemma exact_log_boxless (solids : list (TopoDS_Shape W)) (u : unit_name) :
  bbox_calls (exact_log W solids u) = [].
Proof.
  unfold exact_log. rewrite !bbox_calls_app.
  assert (H1 : bbox_calls (map (@EVolumeProperties F W) solids) = []).
  { induction solids as [|s l IH]; simpl; [reflexivity | exact IH]. }
  assert (H2 : forall infos : list (Z * F * (F * F * F)),
             bbox_calls (W := W) (map (fun i => Stdout (solid_line u i)) infos) = []).
  { induction infos as [|i l IH]; simpl; [reflexivity | exact IH]. }
  rewrite H1, H2. reflexivity.
Qed.

Lemma hybrid_without_bbox_boxless (args : @cal_fine.Args F) :
  bbox_calls (trace (cal_fine.main W (without_bbox args))) = [].
Proof.
  destruct (path_exists W (cal_fine.step args)) eqn:Hex;
    [|now rewrite (hybrid_missing W (without_bbox args) Hex)].
  destruct (is_RetDone (ReadFile W (cal_fine.step args))) eqn:Hread;
    [|now rewrite (hybrid_unreadable W (without_bbox args) Hex Hread)].
  assert (Hd : ReadFile W (cal_fine.step args) = IFSelect_RetDone).
  { destruct (ReadFile W (cal_fine.step args)); try discriminate; reflexivity. }
  pose proof (@main_run _ _ W (without_bbox args) Hex Hd) as Hrun.
  cbv zeta in Hrun.
  destruct (sewing_to_solids_returns W (TransferredShape W (cal_fine.step args))
                                     (cal_fine.tol args)) as [solids Hs].
  assert (Hsew : cal_fine.sewing_to_solids W
                   (TransferredShape W (cal_fine.step args)) (cal_fine.tol args)
                 = (trace (cal_fine.sewing_to_solids W
                             (TransferredShape W (cal_fine.step args))
                             (cal_fine.tol args)), Ret solids)).
  { rewrite <- Hs. apply run_eta. }
  specialize (Hrun _ _ Hsew). clear Hsew.
  pose proof (sewing_log_boxless (TransferredShape W (cal_fine.step args))
                                 (cal_fine.tol args)) as Hb.
  destruct (nonempty solids).
  - rewrite Hrun. unfold trace at 1. cbn [fst].
    rewrite !bbox_calls_app, Hb, exact_log_boxless. reflexivity.
  - destruct (fpow _ 3); rewrite Hrun; unfold trace at 1; cbn [fst];
      rewrite !bbox_calls_app, Hb; simpl;
      try destruct (cal_fine.show args); reflexivity.
Qed.

End BoundingBox.

Section BoundingBoxClaims.
Context {F : Type} {N : Num F} (W : World F).

Lemma hybrid_bbox_irrelevant (args : @cal_fine.Args F) :
  reports (trace (cal_fine.main W args)) =
    reports (trace (cal_fine.main W (without_bbox args))) /\
  result (cal_fine.main W args) = result (cal_fine.main W (without_bbox args)).
Proof.
  destruct (path_exists W (cal_fine.step args)) eqn:Hex;
    [|rewrite (hybrid_missing W (without_bbox args) Hex),
              (hybrid_missing W args Hex); split; reflexivity].
  destruct (is_RetDone (ReadFile W (cal_fine.step args))) eqn:Hread;
    [|rewrite (hybrid_unreadable W (without_bbox args) Hex Hread),
              (hybrid_unreadable W args Hex Hread); split; reflexivity].
  assert (Hd : ReadFile W (cal_fine.step args) = IFSelect_RetDone).
  { destruct (ReadFile W (cal_fine.step args)); try discriminate; reflexivity. }
  destruct (sewing_to_solids_returns W (TransferredShape W (cal_fine.step args))
                                     (cal_fine.tol args)) as [solids Hs].
  pose proof (@main_observed _ _ W args Hex Hd solids Hs) as [_ H1].
  pose proof (@main_observed _ _ W (without_bbox args) Hex Hd solids Hs) as [_ H2].
  cbv zeta in H1, H2.
  simpl cal_fine.step in H2. simpl cal_fine.unit_ in H2.
  simpl cal_fine.pitch in H2.
  destruct (nonempty solids).
  - destruct H1 as (R1 & _ & E1), H2 as (R2 & _ & E2).
    rewrite R1, R2, E1, E2. split; reflexivity.
  - destruct H1 as [_ H1], H2 as [_ H2].
    destruct (fpow (cal_fine.pitch args) 3);
      destruct H1 as [R1 E1], H2 as [R2 E2];
      rewrite R1, R2, E1, E2; split; reflexivity.
Qed.

Lemma compute_bbox_volume_run (path : string) :
  ReadFile W path = IFSelect_RetDone ->
  let shape := TransferredShape W path in
  cal_box.compute_bbox_volume W path =
    ([EReadFile path; ETransferRoots path; EBndBox shape],
     Ret (BndGet W shape, extents_product (BndGet W shape))).
Proof.
  intros H. unfold cal_box.compute_bbox_volume, extents_product. simpl.
  rewrite H. simpl.
  destruct (BndGet W (TransferredShape W path))
    as [[[[[xmin ymin] zmin] xmax] ymax] zmax].
  reflexivity.
Qed.

Lemma cal_box_main_prints_box (args : cal_box.Args) :
  path_exists W (cal_box.step args) = true ->
  ReadFile W (cal_box.step args) = IFSelect_RetDone ->
  let b := BndGet W (TransferredShape W (cal_box.step args)) in
  exists coordinates,
    stdout (trace (cal_box.main W args)) =
      coordinates
      ++ [[Txt "  Volume: ";
           Fix 6 (fmul (extents_product b) (cal_box.scale_table (cal_box.unit_ args)));
           Txt " "; Txt (unit_str (cal_box.unit_ args))]].
Proof.
  intros Hex Hread. unfold cal_box.main. cbv zeta. rewrite Hex. simpl.
  rewrite (compute_bbox_volume_run _ Hread). cbv zeta. simpl.
  unfold extents_product.
  destruct (BndGet W (TransferredShape W (cal_box.step args)))
    as [[[[[xmin ymin] zmin] xmax] ymax] zmax].
  simpl. eexists [_; _; _; _]. reflexivity.
Qed.

End BoundingBoxClaims.

Lemma exact_box_volume_nonneg (b : Qc * Qc * Qc * Qc * Qc * Qc) :
  well_formed_box b = true -> fleb (of_int 0) (extents_product b) = true.
Proof.
  destruct b as [[[[[xmin ymin] zmin] xmax] ymax] zmax].
  unfold well_formed_box, extents_product. rewrite !andb_true_iff.
  intros [[Hx Hy] Hz].
  change (@fleb Qc exact) with Qc_leb in *.
  apply Qc_leb_le in Hx, Hy, Hz. apply Qc_leb_le.
  change (@of_int Qc exact 0) with 0%Qc.
  change (@fmul Qc exact) with Qcmult. change (@fsub Qc exact) with Qcminus.
  apply Qcle_minus_iff in Hx, Hy, Hz.
  repeat apply Qc_mul_nonneg; assumption.
Qed.

Lemma binary64_box_volume_never_negative (b : float * float * float * float * float * float) :
  well_formed_box b = true ->
  fltb (extents_product b) (of_int 0) = false /\
  (fleb (of_int 0) (extents_product b) = true \/
   PrimFloat.is_nan (extents_product b) = true).
Proof.
  destruct b as [[[[[xmin ymin] zmin] xmax] ymax] zmax].
  unfold well_formed_box, extents_product. rewrite !andb_true_iff.
  intros [[Hx Hy] Hz].
  apply (nonneg_never_negative
           (PrimFloat.mul (PrimFloat.mul (PrimFloat.sub xmax xmin)
                                         (PrimFloat.sub ymax ymin))
                          (PrimFloat.sub zmax zmin))).
  repeat apply float_mul_nonneg; apply float_sub_nonneg; assumption.
Qed.

(** C7, as stated, fails in binary64: a flat sheet 2^700 mm on a side has
    a well-formed box, and the product of its extents, infinity times
    zero, is not a number, hence not at least 0. *)
Lemma bbox_volume_overflows_to_nan :
  let W := world_of (F := float) vast_sheet in
  let b := BndGet W Whole in
  well_formed_box b = true /\
  exists vol,
    result (cal_fine.bbox_volume_mm3 W Whole) = Ret (b, vol) /\
    fleb (of_int 0) vol = false.
Proof.
  split; [reflexivity|]. eexists. split; reflexivity.
Qed.

(** C7, amended. [bbox_volume_mm3], [shape_bbox_mm3] and
    [compute_bbox_volume] return the six numbers of the kernel's box and
    the product of its three extents. For a box with [xmin <= xmax],
    [ymin <= ymax] and [zmin <= zmax] that product is at least 0 in exact
    arithmetic; in binary64 it is never below 0: it is at least 0 or, after
    an overflow, not a number. In the hybrid tool the box is computed only under
    [--bbox], and the volume figures reported and the way the run ends are
    the same with and without it. For the bounding-box tool the box
    volume is the last line of its output. *)
Theorem bbox_volume_is_extents_product :
  (forall F (N : Num F) (W : World F) (shape : TopoDS_Shape W),
      result (cal_fine.bbox_volume_mm3 W shape) =
        Ret (BndGet W shape, extents_product (BndGet W shape)) /\
      result (voxel1.shape_bbox_mm3 W shape) =
        Ret (BndGet W shape, extents_product (BndGet W shape))) /\
  (forall F (N : Num F) (W : World F) (path : string),
      ReadFile W path = IFSelect_RetDone ->
      result (cal_box.compute_bbox_volume W path) =
        Ret (BndGet W (TransferredShape W path),
             extents_product (BndGet W (TransferredShape W path)))) /\
  (forall b : Qc * Qc * Qc * Qc * Qc * Qc,
      well_formed_box b = true ->
      fleb (of_int 0) (extents_product b) = true) /\
  (forall b : float * float * float * float * float * float,
      well_formed_box b = true ->
      fltb (extents_product b) (of_int 0) = false /\
      (fleb (of_int 0) (extents_product b) = true \/
       PrimFloat.is_nan (extents_product b) = true)) /\
  (forall F (N : Num F) (W : World F) (args : @cal_fine.Args F),
      bbox_calls (trace (cal_fine.main W (without_bbox args))) = [] /\
      reports (trace (cal_fine.main W args)) =
        reports (trace (cal_fine.main W (without_bbox args))) /\
      result (cal_fine.main W args) =
        result (cal_fine.main W (without_bbox args))) /\
  (forall F (N : Num F) (W : World F) (args : cal_box.Args),
      path_exists W (cal_box.step args) = true ->
      ReadFile W (cal_box.step args) = IFSelect_RetDone ->
      exists coordinates,
        stdout (trace (cal_box.main W args)) =
          coordinates
          ++ [[Txt "  Volume: ";
               Fix 6 (fmul (extents_product
                              (BndGet W (TransferredShape W (cal_box.step args))))
                           (cal_box.scale_table (cal_box.unit_ args)));
               Txt " "; Txt (unit_str (cal_box.unit_ args))]]).
Proof.
  split; [|split; [|split; [|split; [|split]]]].
  - intros F N W shape.
    rewrite bbox_volume_mm3_run, shape_bbox_mm3_run. split; reflexivity.
  - intros F N W path H. rewrite (compute_bbox_volume_run W path H). reflexivity.
  - apply exact_box_volume_nonneg.
  - apply binary64_box_volume_never_negative.
  - intros F N W args. split; [apply hybrid_without_bbox_boxless|].
    apply hybrid_bbox_irrelevant.
  - intros F N W args Hex Hread. apply (cal_box_main_prints_box W args Hex Hread).
Qed.

(** ** The stand-alone voxel tool, run *)

Section Voxel1Run.
Context {F : Type} {N : Num F} (W : World F).

Lemma voxel1_unreadable (args : @voxel1.Args F) :
  path_exists W (voxel1.step args) = true ->
  is_RetDone (ReadFile W (voxel1.step args)) = false ->
  voxel1.main W args =
    ([Stdout [Txt "[INFO] Reading STEP: "; Txt (voxel1.step args)];
      EReadFile (voxel1.step args)],
     RuntimeError [Txt "STEP read failed: "; Txt (voxel1.step args)]).
Proof.
  intros H1 H2. unfold voxel1.main, voxel1.read_step_shape. cbv zeta.
  rewrite H1. simpl. rewrite H2. reflexivity.
Qed.

(** A run of [voxel1.main] on a file that reads. *)
Lemma voxel1_main_run (args : @voxel1.Args F) :
  path_exists W (voxel1.step args) = true ->
  ReadFile W (voxel1.step args) = IFSelect_RetDone ->
  let shape := TransferredShape W (voxel1.step args) in
  let pitch := voxel1.pitch args in
  voxel1.main W args =
    if n_points W (stl_mesh W shape) =? 0
    then (voxel1_opening_log W args
          ++ [Stderr [Txt "ERROR: Empty mesh extracted."]], SysExit 2)
    else match fpow pitch 3 with
         | Some cube =>
             (voxel1_opening_log W args
              ++ [Stdout [Txt "[INFO] Voxelizing @ pitch="; Flt pitch; Txt " ..."];
                  ETriangulate; EVoxelize pitch]
              ++ voxel1_result_log W args cube, Ret tt)
         | None =>
             (voxel1_opening_log W args
              ++ [Stdout [Txt "[INFO] Voxelizing @ pitch="; Flt pitch; Txt " ..."];
                  ETriangulate; EVoxelize pitch], OverflowError)
         end.
Proof.
  intros Hex Hread shape pitch.
  unfold voxel1_opening_log, voxel1_box_log, voxel1_result_log.
  destruct (n_points W (stl_mesh W shape) =? 0) eqn:Hn; subst shape pitch.
  - run_voxel1_main shape_bbox_mm3_run; reflexivity.
  - run_voxel1_main shape_bbox_mm3_run; rewrite voxel_volume_mm3_run; simpl;
      destruct (fpow (voxel1.pitch args) 3); simpl;
      try destruct (voxel1.show args); simpl; reflexivity.
Qed.

End Voxel1Run.

(** ** Exit statuses *)

Section ExitStatus.
Context {F : Type} {N : Num F} (W : World F).

Lemma RetDone_dec (s : IFSelect) :
  (s = IFSelect_RetDone /\ is_RetDone s = true) \/
  (s <> IFSelect_RetDone /\ is_RetDone s = false).
Proof.
  destruct s; [right|left|right|right|right]; split;
    try reflexivity; discriminate.
Qed.

Lemma cal_box_unreadable (args : cal_box.Args) :
  path_exists W (cal_box.step args) = true ->
  is_RetDone (ReadFile W (cal_box.step args)) = false ->
  cal_box.main W args =
    ([EReadFile (cal_box.step args)],
     RuntimeError [Txt "STEP 파일 읽기 실패: "; Txt (cal_box.step args)]).
Proof.
  intros H1 H2. unfold cal_box.main, cal_box.compute_bbox_volume. cbv zeta.
  rewrite H1. simpl. rewrite H2. reflexivity.
Qed.

Lemma test_unreadable (args : test.Args) :
  path_exists W (test.step args) = true ->
  is_RetDone (ReadFile W (test.step args)) = false ->
  test.main W args =
    ([Stdout [Txt "STEP 파일에서 면 추출 중... ("; Txt (test.step args); Txt ")"];
      EReadFile (test.step args)],
     RuntimeError [Txt "STEP 파일을 읽는 데 실패했습니다: "; Txt (test.step args)]).
Proof.
  intros H1 H2. unfold test.main, test.export_step_faces_to_stl. cbv zeta.
  rewrite H1. simpl. rewrite H2. reflexivity.
Qed.

(** X1. A STEP file that exists and that the reader rejects ends each
    tool that checks the read status ([cal_fine], [voxel1], [cal_box],
    [test]) with an uncaught [RuntimeError] naming the path, hence with
    process status 1, the status of a missing file. The only thing loaded
    or written by then is the read attempt itself: nothing is transferred,
    no box is computed, nothing is voxelized, and the face exporter has
    not created its output directory. *)
Theorem unreadable_step_is_fatal :
  (forall args : @cal_fine.Args F,
      path_exists W (cal_fine.step args) = true ->
      ReadFile W (cal_fine.step args) <> IFSelect_RetDone ->
      let run := cal_fine.main W args in
      result run =
        RuntimeError [Txt "STEP read failed: "; Txt (cal_fine.step args)] /\
      exit_code run = 1 /\
      filter (fun e => loads e || touches e) (trace run) =
        [EReadFile (cal_fine.step args)] /\
      bbox_calls (trace run) = [] /\ voxel_pitches (trace run) = []) /\
  (forall args : @voxel1.Args F,
      path_exists W (voxel1.step args) = true ->
      ReadFile W (voxel1.step args) <> IFSelect_RetDone ->
      let run := voxel1.main W args in
      result run =
        RuntimeError [Txt "STEP read failed: "; Txt (voxel1.step args)] /\
      exit_code run = 1 /\
      filter (fun e => loads e || touches e) (trace run) =
        [EReadFile (voxel1.step args)] /\
      bbox_calls (trace run) = [] /\ voxel_pitches (trace run) = []) /\
  (forall args : cal_box.Args,
      path_exists W (cal_box.step args) = true ->
      ReadFile W (cal_box.step args) <> IFSelect_RetDone ->
      let run := cal_box.main W args in
      result run =
        RuntimeError [Txt "STEP 파일 읽기 실패: "; Txt (cal_box.step args)] /\
      exit_code run = 1 /\
      filter (fun e => loads e || touches e) (trace run) =
        [EReadFile (cal_box.step args)] /\
      bbox_calls (trace run) = [] /\ stdout (trace run) = []) /\
  (forall args : test.Args,
      path_exists W (test.step args) = true ->
      ReadFile W (test.step args) <> IFSelect_RetDone ->
      let run := test.main W args in
      result run =
        RuntimeError [Txt "STEP 파일을 읽는 데 실패했습니다: ";
                      Txt (test.step args)] /\
      exit_code run = 1 /\
      filter (fun e => loads e || touches e) (trace run) =
        [EReadFile (test.step args)]).
Proof.
  split; [|split; [|split]]; intros args Hex Hread run; subst run.
  - destruct (RetDone_dec (ReadFile W (cal_fine.step args))) as [[Hd _]|[_ Hd]];
      [contradiction|].
    rewrite (hybrid_unreadable W args Hex Hd). repeat split; reflexivity.
  - destruct (RetDone_dec (ReadFile W (voxel1.step args))) as [[Hd _]|[_ Hd]];
      [contradiction|].
    rewrite (voxel1_unreadable W args Hex Hd). repeat split; reflexivity.
  - destruct (RetDone_dec (ReadFile W (cal_box.step args))) as [[Hd _]|[_ Hd]];
      [contradiction|].
    rewrite (cal_box_unreadable args Hex Hd). repeat split; reflexivity.
  - destruct (RetDone_dec (ReadFile W (test.step args))) as [[Hd _]|[_ Hd]];
      [contradiction|].
    rewrite (test_unreadable args Hex Hd). repeat split; reflexivity.
Qed.



End ExitStatus.

(** ** The face exporter *)

Lemma list_ascii_of_append (a b : string) :
  list_ascii_of_string (a ++ b) = list_ascii_of_string a ++ list_ascii_of_string b.
Proof. induction a as [|c a IH]; simpl; [reflexivity | now rewrite IH]. Qed.

Lemma append_inv_head (a x y : string) : (a ++ x = a ++ y)%string -> x = y.
Proof.
  induction a as [|c a IH]; simpl; intros H; [exact H|].
  injection H as H. exact (IH H).
Qed.

Lemma append_inv_tail (x y t : string) : (x ++ t = y ++ t)%string -> x = y.
Proof.
  intros H. apply (f_equal list_ascii_of_string) in H.
  rewrite !list_ascii_of_append in H. apply app_inv_tail in H.
  apply (f_equal string_of_list_ascii) in H.
  now rewrite !string_of_list_ascii_of_string in H.
Qed.

(** Reading a printed integer back gives a numeral of the same value. *)
Lemma int_of_string_of_int (d : Decimal.signed_int) :
  exists d', NilZero.int_of_string (NilZero.string_of_int d) = Some d' /\
             Z.of_int d' = Z.of_int d.
Proof.
  destruct d as [u|u]; destruct u;
    try (eexists; split; [apply NilZero.isi; discriminate | reflexivity]).
  - exists (Decimal.Pos (Decimal.D0 Decimal.Nil)).
    split; [apply NilZero.isi_posnil | reflexivity].
  - exists (Decimal.Neg (Decimal.D0 Decimal.Nil)).
    split; [apply NilZero.isi_negnil | reflexivity].
Qed.

Lemma str_of_int_inj (a b : Z) : test.str_of_int a = test.str_of_int b -> a = b.
Proof.
  unfold test.str_of_int. intros H.
  destruct (int_of_string_of_int (Z.to_int a)) as (da & Ha & Va).
  destruct (int_of_string_of_int (Z.to_int b)) as (db & Hb & Vb).
  rewrite H in Ha. rewrite Ha in Hb. injection Hb as ->.
  rewrite DecimalZ.of_to in Va, Vb. congruence.
Qed.

Lemma path_join_inj (dir x y : string) :
  test.path_join dir x = test.path_join dir y -> x = y.
Proof.
  unfold test.path_join.
  destruct ((String.length dir =? 0)%nat || test.ends_with_slash dir); intros H.
  - exact (append_inv_head _ _ _ H).
  - apply append_inv_head in H. exact (append_inv_head _ _ _ H).
Qed.

Lemma face_file_inj (out_dir : string) (i j : nat) :
  face_file out_dir i = face_file out_dir j -> i = j.
Proof.
  unfold face_file. intros H. apply path_join_inj in H.
  apply append_inv_head in H. apply append_inv_tail in H.
  apply str_of_int_inj in H. lia.
Qed.

Lemma NoDup_map_injective {A B : Type} (f : A -> B) (l : list A) :
  (forall x y, f x = f y -> x = y) -> NoDup l -> NoDup (map f l).
Proof.
  intros Hf Hl. induction Hl as [|x l Hx Hl IH]; simpl; constructor;
    [|exact IH].
  intros Hin. apply in_map_iff in Hin as (y & Hy & Hin).
  apply Hf in Hy. subst y. contradiction.
Qed.

Lemma map_snd_combine {A B : Type} (l : list A) (l' : list B) :
  List.length l' = List.length l -> map snd (combine l l') = l'.
Proof.
  revert l'. induction l as [|x l IH]; intros [|y l'] H; simpl in *;
    try reflexivity; try discriminate.
  injection H as H. now rewrite IH.
Qed.

Lemma face_files_distinct (out_dir : string) (k n : nat) :
  NoDup (map (face_file out_dir) (seq k n)).
Proof.
  apply NoDup_map_injective; [|apply seq_NoDup].
  intros i j. apply face_file_inj.
Qed.

Section FaceExporter.
Context {F : Type} {N : Num F} (W : World F).

Lemma export_loop_run (faces : list (TopoDS_Shape W)) (out_dir : string)
      (k : nat) (out_filenames : list string) :
  let names := map (face_file out_dir) (seq k (List.length faces)) in
  test.export_loop W faces out_dir (Z.of_nat k) out_filenames =
    (flat_map export_face_log (combine faces names),
     Ret (out_filenames ++ names)).
Proof.
  revert k out_filenames.
  induction faces as [|face rest IH]; intros k out_filenames; simpl.
  - now rewrite app_nil_r.
  - replace (Z.of_nat k + 1) with (Z.of_nat (S k)) by lia.
    rewrite IH. simpl. unfold face_file at 3. rewrite <- app_assoc. reflexivity.
Qed.

Lemma export_run (step_filename out_dir : string) :
  ReadFile W step_filename = IFSelect_RetDone ->
  let shape := TransferredShape W step_filename in
  let faces := Explorer W shape TopAbs_FACE in
  let names := map (face_file out_dir) (seq 0 (List.length faces)) in
  test.export_step_faces_to_stl W step_filename out_dir =
    ([EReadFile step_filename; ETransferRoots step_filename;
      EMakeDirs out_dir; EExplore shape TopAbs_FACE]
     ++ flat_map export_face_log (combine faces names),
     Ret names).
Proof.
  intros Hread shape faces names.
  unfold test.export_step_faces_to_stl. simpl. rewrite Hread. simpl.
  pose proof (export_loop_run (Explorer W (TransferredShape W step_filename)
                                          TopAbs_FACE) out_dir 0 []) as H.
  cbv zeta in H. simpl Z.of_nat in H. rewrite H. reflexivity.
Qed.

Lemma file_system_export (items : list (TopoDS_Shape W * string)) :
  file_system (flat_map export_face_log items) =
    map (fun item => EWriteStl (fst item) (snd item)) items /\
  stdout (flat_map export_face_log items) =
    map (fun item => [Txt (snd item); Txt " 저장 완료."]) items /\
  read_meshes (flat_map export_face_log items) = [] /\
  viewers (flat_map export_face_log items) = 0%nat /\
  written_files (flat_map export_face_log items) = items.
Proof.
  induction items as [|[face name] items (IH1 & IH2 & IH3 & IH4 & IH5)];
    [repeat split; reflexivity|].
  unfold file_system, viewers in *. simpl.
  rewrite IH1, IH2, IH3, IH5. repeat split; try reflexivity. exact IH4.
Qed.

(** X4. On a file that reads, [export_step_faces_to_stl] creates the
    output directory first and then writes the faces of the shape, in the
    order of the explorer, one file per face: face number [i] (from 0) goes
    to [face_i.stl] in the output directory. It prints one line per file,
    reads nothing back, and returns the file names in that order. *)
Theorem export_writes_one_file_per_face (step_filename out_dir : string) :
  ReadFile W step_filename = IFSelect_RetDone ->
  let faces := Explorer W (TransferredShape W step_filename) TopAbs_FACE in
  let names := map (face_file out_dir) (seq 0 (List.length faces)) in
  let run := test.export_step_faces_to_stl W step_filename out_dir in
  result run = Ret names /\
  List.length names = List.length faces /\
  file_system (trace run) =
    EMakeDirs out_dir
    :: map (fun item => EWriteStl (fst item) (snd item)) (combine faces names) /\
  stdout (trace run) = map (fun name => [Txt name; Txt " 저장 완료."]) names.
Proof.
  intros Hread faces names run. subst run.
  pose proof (export_run step_filename out_dir Hread) as H. cbv zeta in H.
  fold faces in H. fold names in H. rewrite H. unfold trace, result.
  cbn [fst snd].
  destruct (file_system_export (combine faces names)) as (H1 & H2 & _).
  assert (Hlen : List.length names = List.length faces).
  { unfold names. now rewrite length_map, length_seq. }
  split; [reflexivity|]. split; [exact Hlen|]. split.
  - unfold file_system in *. rewrite filter_app. simpl. now rewrite H1.
  - rewrite stdout_app. simpl. rewrite H2.
    transitivity (map (fun name => [Txt (F := F) name; Txt " 저장 완료."])
                      (map snd (combine faces names))).
    + now rewrite map_map.
    + rewrite map_snd_combine; [reflexivity|]. now rewrite Hlen.
Qed.

(** X5. The names [export_step_faces_to_stl] returns are pairwise
    distinct, whatever the output directory and the number of faces: no
    face is written over another. *)
Theorem exported_files_are_distinct (step_filename out_dir : string) :
  ReadFile W step_filename = IFSelect_RetDone ->
  exists names,
    result (test.export_step_faces_to_stl W step_filename out_dir) = Ret names /\
    map snd (written_files
               (trace (test.export_step_faces_to_stl W step_filename out_dir)))
      = names /\
    NoDup names.
Proof.
  intros Hread.
  pose proof (export_run step_filename out_dir Hread) as H. cbv zeta in H.
  rewrite H. unfold trace, result. cbn [fst snd].
  eexists. split; [reflexivity|]. split; [|apply face_files_distinct].
  set (faces := Explorer W (TransferredShape W step_filename) TopAbs_FACE).
  set (names := map (face_file out_dir) (seq 0 (List.length faces))).
  destruct (file_system_export (combine faces names)) as (_ & _ & _ & _ & H5).
  unfold written_files in *. rewrite flat_map_app. simpl. rewrite H5.
  apply map_snd_combine. unfold names. now rewrite length_map, length_seq.
Qed.

End FaceExporter.

Section FaceViewer.
Context {F : Type} {N : Num F} (W : World F).

Lemma for_each_read_mesh (names : list string) :
  for_each names (fun stl_file => emit (W := W) (EReadMesh stl_file)) =
    (map EReadMesh names, Ret tt).
Proof.
  induction names as [|name names IH]; simpl; [reflexivity|].
  rewrite IH. reflexivity.
Qed.

Lemma load_and_view_faces_run (stl_files : list string) :
  test.load_and_view_faces W stl_files =
    if nonempty stl_files
    then (map EReadMesh stl_files
          ++ [Stdout [Txt "[안내] 3D 창에서 마우스 왼쪽 드래그로 회전, 휠로 줌, 'P' 키로 픽 모드를 토글할 수 있습니다."];
              EShow], Ret tt)
    else ([Stdout [Txt "STL 파일이 없습니다."]], Ret tt).
Proof.
  unfold test.load_and_view_faces.
  destruct (nonempty stl_files); simpl; [|reflexivity].
  rewrite for_each_read_mesh. reflexivity.
Qed.

Lemma read_mesh_log (names : list string) :
  file_system (map (@EReadMesh F W) names) = map EReadMesh names /\
  viewers (map (@EReadMesh F W) names) = 0%nat /\
  stdout (map (@EReadMesh F W) names) = [].
Proof.
  unfold file_system, viewers.
  induction names as [|name names (IH1 & IH2 & IH3)]; simpl;
    [repeat split; reflexivity|].
  rewrite IH1. repeat split; assumption.
Qed.

Lemma test_main_run (args : test.Args) :
  path_exists W (test.step args) = true ->
  ReadFile W (test.step args) = IFSelect_RetDone ->
  let path := test.step args in
  let shape := TransferredShape W path in
  let faces := Explorer W shape TopAbs_FACE in
  let names := map (face_file (test.out args)) (seq 0 (List.length faces)) in
  test.main W args =
    ([Stdout [Txt "STEP 파일에서 면 추출 중... ("; Txt path; Txt ")"];
      EReadFile path; ETransferRoots path; EMakeDirs (test.out args);
      EExplore shape TopAbs_FACE]
     ++ flat_map export_face_log (combine faces names)
     ++ [Stdout [Txt "PyVista를 통해 면 시각화 중..."]]
     ++ trace (test.load_and_view_faces W names), Ret tt).
Proof.
  intros Hex Hread path shape faces names.
  unfold test.main. cbv zeta. rewrite Hex. simpl.
  pose proof (export_run W (test.step args) (test.out args) Hread) as H.
  cbv zeta in H. rewrite H. clear H. simpl.
  fold path shape faces names.
  rewrite (load_and_view_faces_run names).
  destruct (nonempty names); simpl; rewrite <- ?app_assoc; reflexivity.
Qed.

(** X6. A run of the face exporter's [main] on a file that reads: the
    output directory is created, every face is written to its own file,
    and then exactly the files written are read back for the viewer, in the
    order they were written. The viewer opens once when the shape has a
    face; when it has none, nothing is read, no viewer opens, and the last
    line printed says that there is no STL file. Either way [main]
    returns. *)
Theorem viewer_loads_what_was_exported (args : test.Args) :
  path_exists W (test.step args) = true ->
  ReadFile W (test.step args) = IFSelect_RetDone ->
  let faces := Explorer W (TransferredShape W (test.step args)) TopAbs_FACE in
  let names := map (face_file (test.out args)) (seq 0 (List.length faces)) in
  let run := test.main W args in
  result run = Ret tt /\
  file_system (trace run) =
    EMakeDirs (test.out args)
    :: map (fun item => EWriteStl (fst item) (snd item)) (combine faces names)
    ++ map EReadMesh names /\
  viewers (trace run) = (if nonempty faces then 1 else 0)%nat /\
  (faces = [] -> last (stdout (trace run)) [] = [Txt "STL 파일이 없습니다."]).
Proof.
  intros Hex Hread faces names run. subst run.
  pose proof (test_main_run args Hex Hread) as H. cbv zeta in H.
  fold faces in H. fold names in H. rewrite H. clear H.
  rewrite (load_and_view_faces_run names).
  destruct (file_system_export W (combine faces names)) as (E1 & E2 & _ & E4 & _).
  destruct (read_mesh_log names) as (R1 & R2 & R3).
  assert (Hne : nonempty names = nonempty faces).
  { unfold names. destruct faces; reflexivity. }
  rewrite Hne. unfold trace, result. cbn [fst snd].
  split; [reflexivity|].
  unfold file_system, viewers in *. clearbody names. clearbody faces.
  destruct (nonempty faces) eqn:Hf; cbn [fst snd].
  - rewrite !filter_app, !length_app, E1, R1, E4, R2. simpl.
    rewrite app_nil_r. split; [reflexivity|]. split; [reflexivity|].
    intros E. rewrite E in Hf. discriminate Hf.
  - destruct faces; [|discriminate Hf]. destruct names; [|discriminate Hne].
    split; [reflexivity|]. split; [reflexivity|]. intros _. reflexivity.
Qed.

End FaceViewer.

Section OtherExits.
Context {F : Type} {N : Num F} (W : World F).

Lemma cal_box_main_returns (args : cal_box.Args) :
  path_exists W (cal_box.step args) = true ->
  ReadFile W (cal_box.step args) = IFSelect_RetDone ->
  result (cal_box.main W args) = Ret tt /\
  trace (cal_box.main W args) =
    [EReadFile (cal_box.step args); ETransferRoots (cal_box.step args);
     EBndBox (TransferredShape W (cal_box.step args))]
    ++ map Stdout (stdout (trace (cal_box.main W args))).
Proof.
  intros Hex Hread. unfold cal_box.main. cbv zeta. rewrite Hex. simpl.
  rewrite (compute_bbox_volume_run W _ Hread). simpl.
  destruct (BndGet W (TransferredShape W (cal_box.step args)))
    as [[[[[xmin ymin] zmin] xmax] ymax] zmax].
  split; reflexivity.
Qed.


End OtherExits.

(** ** Files, viewers and flags *)

Section LogFacts.
Context {F : Type} {W : World F}.

Lemma file_system_app (t u : list (event W)) :
  file_system (t ++ u) = file_system t ++ file_system u.
Proof. apply filter_app. Qed.

Lemma viewers_app (t u : list (event W)) :
  viewers (t ++ u) = (viewers t + viewers u)%nat.
Proof. unfold viewers. now rewrite filter_app, length_app. Qed.

Lemma volume_queries_app (t u : list (event W)) :
  volume_queries (t ++ u) = volume_queries t ++ volume_queries u.
Proof. apply flat_map_app. Qed.

Lemma stdout_printed {A : Type} (f : A -> line F) (l : list A) :
  stdout (map (fun i => Stdout (W := W) (f i)) l) = map f l.
Proof. induction l as [|i l IH]; simpl; [reflexivity | now rewrite IH]. Qed.

Lemma printed_lines_log (ls : list (line F)) :
  file_system (map (@Stdout F W) ls) = [] /\
  viewers (map (@Stdout F W) ls) = 0%nat /\
  volume_queries (map (@Stdout F W) ls) = [].
Proof.
  unfold file_system, viewers.
  induction ls as [|l ls IH]; simpl; [repeat split; reflexivity | exact IH].
Qed.

Lemma volume_properties_log (solids : list (TopoDS_Shape W)) :
  file_system (map (@EVolumeProperties F W) solids) = [] /\
  viewers (map (@EVolumeProperties F W) solids) = 0%nat /\
  volume_queries (map (@EVolumeProperties F W) solids) = solids.
Proof.
  unfold file_system, viewers.
  induction solids as [|s l (IH1 & IH2 & IH3)]; simpl;
    [repeat split; reflexivity|].
  rewrite IH3. repeat split; assumption.
Qed.

Lemma make_solid_log (shells : list (TopoDS_Shape W)) :
  file_system (map (@EMakeSolid F W) shells) = [] /\
  viewers (map (@EMakeSolid F W) shells) = 0%nat /\
  volume_queries (map (@EMakeSolid F W) shells) = [].
Proof.
  unfold file_system, viewers.
  induction shells as [|s l IH]; simpl; [repeat split; reflexivity | exact IH].
Qed.
End LogFacts.

Section Flags.
Context {F : Type} {N : Num F} (W : World F).

Lemma sewing_log_quiet (shape : TopoDS_Shape W) (tol : F) :
  let t := trace (cal_fine.sewing_to_solids W shape tol) in
  file_system t = [] /\ viewers t = 0%nat /\ volume_queries t = [].
Proof.
  pose proof (sewing_to_solids_run W shape tol) as H. cbv zeta in H.
  cbv zeta. rewrite H. clear H.
  destruct (nonempty _); unfold trace; cbn [fst];
    [repeat split; reflexivity|].
  rewrite file_system_app, viewers_app, volume_queries_app.
  destruct (make_solid_log (W := W)
              (Explorer W (SewedShape W tol shape) TopAbs_SHELL))
    as (-> & -> & ->).
  repeat split; reflexivity.
Qed.

Lemma opening_log_quiet (args : @cal_fine.Args F) :
  file_system (opening_log W args) = [] /\
  viewers (opening_log W args) = 0%nat /\
  volume_queries (opening_log W args) = [].
Proof.
  unfold opening_log. destruct (cal_fine.bbox args); repeat split; reflexivity.
Qed.

Lemma exact_log_quiet (solids : list (TopoDS_Shape W)) (u : unit_name) :
  file_system (exact_log W solids u) = [] /\
  viewers (exact_log W solids u) = 0%nat /\
  volume_queries (exact_log W solids u) = solids.
Proof.
  unfold exact_log.
  destruct (volume_properties_log (W := W) solids) as (V1 & V2 & V3).
  destruct (printed_lines_log (W := W)
              (map (solid_line u) (entries W 0 solids (cal_fine.UNIT u))))
    as (P1 & P2 & P3).
  rewrite map_map in P1, P2, P3.
  rewrite !file_system_app, !viewers_app, !volume_queries_app.
  rewrite V1, V2, V3, P1, P2, P3. simpl. rewrite app_nil_r.
  repeat split; reflexivity.
Qed.

(** The run of the hybrid [main] with the trace of the reconstruction
    named. *)
Lemma hybrid_run (args : @cal_fine.Args F) :
  path_exists W (cal_fine.step args) = true ->
  ReadFile W (cal_fine.step args) = IFSelect_RetDone ->
  let shape := TransferredShape W (cal_fine.step args) in
  let u := cal_fine.unit_ args in
  let pitch := cal_fine.pitch args in
  let vox := voxelize W (triangulate W (stl_mesh W shape)) pitch in
  let tsew := trace (cal_fine.sewing_to_solids W shape (cal_fine.tol args)) in
  forall solids,
    result (cal_fine.sewing_to_solids W shape (cal_fine.tol args)) = Ret solids ->
    cal_fine.main W args =
      if nonempty solids
      then (opening_log W args ++ tsew ++ exact_log W solids u, Ret tt)
      else match fpow pitch 3 with
           | Some cube =>
               (opening_log W args ++ tsew ++ fallback_log W shape pitch
                ++ [Stdout (voxel_line u pitch
                              (fmul (fmul (of_int (n_cells W vox)) cube)
                                    (cal_fine.UNIT u)))]
                ++ (if cal_fine.show args then [EShow] else []),
                Ret tt)
           | None =>
               (opening_log W args ++ tsew ++ fallback_log W shape pitch,
                OverflowError)
           end.
Proof.
  intros Hex Hread shape u pitch vox tsew solids Hs.
  apply (@main_run _ _ W args Hex Hread). subst tsew shape.
  rewrite <- Hs. apply run_eta.
Qed.

(** X8. In the hybrid tool the temporary STL file exists only on the
    voxel path: when the reconstruction returns a solid the run touches no
    file besides the STEP file; when it returns none, the run enters a
    temporary directory, writes the shape to [t.stl] there, reads it back
    and leaves the directory, before anything is voxelized and whether or
    not the cube of the pitch then overflows. The stand-alone voxel tool
    does the same with [tmp.stl] on every file that reads. *)
Theorem mesh_goes_through_a_temporary_file :
  (forall (args : @cal_fine.Args F) solids,
      path_exists W (cal_fine.step args) = true ->
      ReadFile W (cal_fine.step args) = IFSelect_RetDone ->
      let shape := TransferredShape W (cal_fine.step args) in
      result (cal_fine.sewing_to_solids W shape (cal_fine.tol args)) = Ret solids ->
      file_system (trace (cal_fine.main W args)) =
        if nonempty solids then []
        else [ETempDir true; EWriteStl shape "t.stl"; EReadMesh "t.stl";
              ETempDir false]) /\
  (forall args : @voxel1.Args F,
      path_exists W (voxel1.step args) = true ->
      ReadFile W (voxel1.step args) = IFSelect_RetDone ->
      let shape := TransferredShape W (voxel1.step args) in
      file_system (trace (voxel1.main W args)) =
        [ETempDir true; EWriteStl shape "tmp.stl"; EReadMesh "tmp.stl";
         ETempDir false]).
Proof.
  split.
  - intros args solids Hex Hread shape Hs.
    pose proof (@hybrid_run args Hex Hread solids Hs) as H. cbv zeta in H.
    fold shape in H.
    destruct (sewing_log_quiet shape (cal_fine.tol args)) as (S1 & _).
    destruct (opening_log_quiet args) as (O1 & _).
    destruct (exact_log_quiet solids (cal_fine.unit_ args)) as (X1 & _).
    cbv zeta in S1.
    destruct (nonempty solids).
    + rewrite H. unfold trace at 1. cbn [fst].
      now rewrite !file_system_app, O1, S1, X1.
    + destruct (fpow (cal_fine.pitch args) 3); rewrite H; unfold trace at 1;
        cbn [fst]; rewrite !file_system_app, O1, S1;
        try destruct (cal_fine.show args); reflexivity.
  - intros args Hex Hread shape.
    pose proof (voxel1_main_run W args Hex Hread) as H. cbv zeta in H.
    rewrite H. clear H. unfold voxel1_opening_log, voxel1_box_log,
      voxel1_result_log. fold shape.
    destruct (BndGet W shape) as [[[[[xmin ymin] zmin] xmax] ymax] zmax].
    destruct (n_points W (stl_mesh W shape) =? 0);
      [|destruct (fpow (voxel1.pitch args) 3)];
      destruct (voxel1.bbox args); try destruct (voxel1.show args);
      reflexivity.
Qed.

(** X9. The bounding-box tool and [voxel2.main] never write a file,
    create a directory or read a mesh file, whatever their arguments; the
    bounding-box tool never opens a viewer, and its [--out] option, though
    accepted, changes nothing in its run. *)
Theorem tools_that_leave_the_disk_alone :
  (forall args : cal_box.Args,
      file_system (trace (cal_box.main W args)) = [] /\
      viewers (trace (cal_box.main W args)) = 0%nat) /\
  (forall args args' : cal_box.Args,
      cal_box.step args = cal_box.step args' ->
      cal_box.unit_ args = cal_box.unit_ args' ->
      cal_box.main W args = cal_box.main W args') /\
  (forall args : @voxel2.Args F,
      file_system (trace (voxel2.main W args)) = []).
Proof.
  split; [|split].
  - intros args.
    destruct (path_exists W (cal_box.step args)) eqn:Hex;
      [|rewrite (cal_box_missing W args Hex); split; reflexivity].
    destruct (RetDone_dec (ReadFile W (cal_box.step args))) as [[Hd _]|[Hn Hd]];
      [|rewrite (cal_box_unreadable W args Hex Hd); split; reflexivity].
    destruct (cal_box_main_returns W args Hex Hd) as [_ Ht]. rewrite Ht.
    destruct (printed_lines_log (W := W) (stdout (trace (cal_box.main W args))))
      as (P1 & P2 & _).
    now rewrite file_system_app, viewers_app, P1, P2.
  - intros [step out u] [step' out' u']. simpl. intros -> ->. reflexivity.
  - intros args. unfold voxel2.main. cbv zeta.
    destruct (path_exists W (voxel2.step args)); simpl; [|reflexivity].
    rewrite voxel2_volume_run. cbv zeta.
    destruct (fpow (voxel2.pitch args) 3); simpl; [|reflexivity].
    destruct (voxel2.view args); reflexivity.
Qed.

End Flags.

Section Requests.
Context {F : Type} {N : Num F} (W : World F).

(** X10. The viewer opens only on request and only at the end of a run
    that succeeded. In the hybrid tool [--show] does nothing unless the run
    took the voxel path and ended with status 0: with closed solids the
    option is ignored. A run with [--show] is the run without it, followed
    by the viewer when it opens; the figures printed and the way the run
    ends are the same. In the two voxel tools the viewer opens exactly
    when it is asked for and the run ends with status 0. *)
Theorem viewer_opens_only_on_request :
  (forall args : @cal_fine.Args F,
      let run := cal_fine.main W args in
      let quiet := cal_fine.main W (without_show args) in
      viewers (trace run) =
        (if cal_fine.show args && (exit_code run =? 0)
            && nonempty (voxel_pitches (trace run)) then 1%nat else 0%nat) /\
      trace run = trace quiet ++ repeat EShow (viewers (trace run)) /\
      result run = result quiet) /\
  (forall args : @voxel1.Args F,
      let run := voxel1.main W args in
      viewers (trace run) =
        (if voxel1.show args && (exit_code run =? 0) then 1%nat else 0%nat)) /\
  (forall args : @voxel2.Args F,
      let run := voxel2.main W args in
      viewers (trace run) =
        (if voxel2.view args && (exit_code run =? 0) then 1%nat else 0%nat)).
Proof.
  split; [|split]; intros args run; [intros quiet; subst quiet|..]; subst run.
  - destruct (path_exists W (cal_fine.step args)) eqn:Hex.
    2: { rewrite (hybrid_missing W args Hex).
         rewrite (hybrid_missing W (without_show args) Hex).
         unfold exit_code, result, trace. simpl.
         rewrite andb_false_r. repeat split; reflexivity. }
    destruct (RetDone_dec (ReadFile W (cal_fine.step args))) as [[Hd _]|[Hn Hd]].
    2: { rewrite (hybrid_unreadable W args Hex Hd).
         rewrite (hybrid_unreadable W (without_show args) Hex Hd).
         unfold exit_code, result, trace. simpl.
         rewrite andb_false_r. repeat split; reflexivity. }
    destruct (sewing_to_solids_returns W (TransferredShape W (cal_fine.step args))
                                       (cal_fine.tol args)) as [solids Hs].
    pose proof (@hybrid_run _ _ W args Hex Hd solids Hs) as H.
    pose proof (@hybrid_run _ _ W (without_show args) Hex Hd solids Hs) as H0.
    cbv zeta in H, H0. simpl cal_fine.show in H0.
    change (opening_log W (without_show args)) with (opening_log W args) in H0.
    change (cal_fine.step (without_show args)) with (cal_fine.step args) in H0.
    change (cal_fine.tol (without_show args)) with (cal_fine.tol args) in H0.
    change (cal_fine.pitch (without_show args)) with (cal_fine.pitch args) in H0.
    change (cal_fine.unit_ (without_show args)) with (cal_fine.unit_ args) in H0.
    set (shape := TransferredShape W (cal_fine.step args)) in *.
    set (tsew := trace (cal_fine.sewing_to_solids W shape (cal_fine.tol args))) in *.
    destruct (sewing_log_quiet W shape (cal_fine.tol args)) as (_ & S2 & _).
    destruct (sewing_log_silent W shape (cal_fine.tol args)) as (_ & _ & S3).
    destruct (opening_log_quiet W args) as (_ & O2 & _).
    destruct (opening_log_silent W args) as (_ & _ & O3).
    destruct (exact_log_quiet W solids (cal_fine.unit_ args)) as (_ & X2 & _).
    destruct (exact_log_reports W solids (cal_fine.unit_ args)) as (_ & _ & X3).
    cbv zeta in S2, S3. fold tsew in S2, S3.
    destruct (nonempty solids).
    + rewrite H, H0. unfold trace, result, exit_code. cbn [fst snd].
      rewrite !viewers_app, !voxel_pitches_app, O2, O3, S2, S3, X2, X3.
      split; [destruct (cal_fine.show args); reflexivity|].
      split; [symmetry; apply app_nil_r | reflexivity].
    + destruct (fpow (cal_fine.pitch args) 3) as [cube|]; rewrite H, H0;
        unfold trace, result, exit_code; cbn [fst snd];
        rewrite !viewers_app, !voxel_pitches_app, O2, O3, S2, S3.
      * destruct (cal_fine.show args).
        -- split; [reflexivity|]. split; [|reflexivity].
           rewrite app_nil_r, <- !app_assoc. reflexivity.
        -- split; [reflexivity|]. split; [|reflexivity].
           symmetry; apply app_nil_r.
      * split; [destruct (cal_fine.show args); reflexivity|].
        split; [symmetry; apply app_nil_r | reflexivity].
  - destruct (path_exists W (voxel1.step args)) eqn:Hex.
    2: { rewrite (voxel1_missing W args Hex). unfold exit_code, result. simpl.
         now rewrite andb_false_r. }
    destruct (RetDone_dec (ReadFile W (voxel1.step args))) as [[Hd _]|[Hn Hd]].
    2: { rewrite (voxel1_unreadable W args Hex Hd). unfold exit_code, result.
         simpl. now rewrite andb_false_r. }
    pose proof (voxel1_main_run W args Hex Hd) as H. cbv zeta in H.
    rewrite H. clear H.
    unfold voxel1_opening_log, voxel1_box_log, voxel1_result_log.
    destruct (BndGet W (TransferredShape W (voxel1.step args)))
      as [[[[[xmin ymin] zmin] xmax] ymax] zmax].
    destruct (n_points W (stl_mesh W (TransferredShape W (voxel1.step args))) =? 0);
      [|destruct (fpow (voxel1.pitch args) 3)];
      destruct (voxel1.bbox args); destruct (voxel1.show args); reflexivity.
  - unfold voxel2.main. cbv zeta.
    destruct (path_exists W (voxel2.step args)); simpl;
      [|unfold exit_code, result; simpl; now rewrite andb_false_r].
    rewrite voxel2_volume_run. cbv zeta.
    destruct (fpow (voxel2.pitch args) 3); simpl;
      [|unfold exit_code, result; simpl; now rewrite andb_false_r].
    destruct (voxel2.view args); reflexivity.
Qed.


Lemma closed_shells_nil (shells : list (TopoDS_Shape W)) :
  closed_shells W shells = [] <->
  Forall (fun shell => MakeSolid W shell = None) shells.
Proof.
  unfold closed_shells. induction shells as [|shell rest IH]; simpl.
  - split; [constructor | reflexivity].
  - destruct (MakeSolid W shell) as [solid|] eqn:Hm; simpl; split.
    + discriminate.
    + intros H. inversion H; subst. congruence.
    + intros H. constructor; [exact Hm | now apply IH].
    + intros H. inversion H; subst. now apply IH.
Qed.

(** X12. A run of the hybrid tool on a file that reads voxelizes exactly
    when nothing closes: when the sewn shape holds no solid and
    [BRepBuilderAPI_MakeSolid] is done for none of its shells. It then
    voxelizes once, at the pitch of the command line; otherwise it does
    not voxelize at all. *)
Theorem fallback_iff_nothing_closes (args : @cal_fine.Args F) :
  path_exists W (cal_fine.step args) = true ->
  ReadFile W (cal_fine.step args) = IFSelect_RetDone ->
  let sewed := SewedShape W (cal_fine.tol args)
                          (TransferredShape W (cal_fine.step args)) in
  let run := cal_fine.main W args in
  (voxel_pitches (trace run) = [cal_fine.pitch args] <->
   Explorer W sewed TopAbs_SOLID = [] /\
   Forall (fun shell => MakeSolid W shell = None)
          (Explorer W sewed TopAbs_SHELL)) /\
  (voxel_pitches (trace run) = [] <->
   ~ (Explorer W sewed TopAbs_SOLID = [] /\
      Forall (fun shell => MakeSolid W shell = None)
             (Explorer W sewed TopAbs_SHELL))).
Proof.
  intros Hex Hread sewed run. subst run.
  set (shape := TransferredShape W (cal_fine.step args)) in *.
  pose proof (sewing_to_solids_run W shape (cal_fine.tol args)) as Hsew.
  cbv zeta in Hsew. fold sewed in Hsew.
  assert (Hv : forall solids,
             result (cal_fine.sewing_to_solids W shape (cal_fine.tol args))
               = Ret solids ->
             voxel_pitches (trace (cal_fine.main W args)) =
               if nonempty solids then [] else [cal_fine.pitch args]).
  { intros solids Hs.
    destruct (@main_observed _ _ W args Hex Hread solids Hs) as [_ H].
    destruct (nonempty solids); [apply H | apply H]. }
  destruct (Explorer W sewed TopAbs_SOLID) as [|s direct] eqn:Hd.
  - simpl in Hsew.
    specialize (Hv (closed_shells W (Explorer W sewed TopAbs_SHELL))).
    rewrite Hsew in Hv. specialize (Hv eq_refl). rewrite Hv.
    pose proof (closed_shells_nil (Explorer W sewed TopAbs_SHELL)) as Hn.
    destruct (closed_shells W (Explorer W sewed TopAbs_SHELL)) as [|c cs];
      simpl.
    + assert (Hall := proj1 Hn eq_refl). split; split.
      * intros _. split; [reflexivity | exact Hall].
      * reflexivity.
      * discriminate.
      * intros H. exfalso. apply H. split; [reflexivity | exact Hall].
    + split; split.
      * discriminate.
      * intros [_ H]. apply Hn in H. discriminate H.
      * intros _ [_ H]. apply Hn in H. discriminate H.
      * reflexivity.
  - simpl in Hsew. specialize (Hv (s :: direct)). rewrite Hsew in Hv.
    specialize (Hv eq_refl). rewrite Hv. simpl.
    split; split.
    + discriminate.
    + intros [H _]. discriminate H.
    + intros _ [H _]. discriminate H.
    + reflexivity.
Qed.

(** X13. In a run of the hybrid tool on a file that reads, the kernel is
    asked for volume properties once for each solid the reconstruction
    returned, in order, and for nothing else; on the voxel path it is not
    asked at all. When there are solids, the count printed after
    "closed solids found" is their number, and as many solid lines
    follow, then the total. *)
Theorem every_solid_is_measured_once (args : @cal_fine.Args F) solids :
  path_exists W (cal_fine.step args) = true ->
  ReadFile W (cal_fine.step args) = IFSelect_RetDone ->
  let shape := TransferredShape W (cal_fine.step args) in
  let u := cal_fine.unit_ args in
  let run := cal_fine.main W args in
  result (cal_fine.sewing_to_solids W shape (cal_fine.tol args)) = Ret solids ->
  volume_queries (trace run) = solids /\
  (solids <> [] ->
   exists head infos total,
     stdout (trace run) =
       head
       ++ [[Txt "[OK] closed solids found = ";
            Int (Z.of_nat (List.length solids))]]
       ++ map (solid_line u) infos ++ [total_line u total] /\
     List.length infos = List.length solids /\
     result (cal_fine.solids_volume W solids (cal_fine.UNIT u)) =
       Ret (infos, total)).
Proof.
  intros Hex Hread shape u run Hs. subst run.
  pose proof (@hybrid_run _ _ W args Hex Hread solids Hs) as H. cbv zeta in H.
  fold shape in H. fold u in H.
  set (tsew := trace (cal_fine.sewing_to_solids W shape (cal_fine.tol args))) in *.
  destruct (sewing_log_quiet W shape (cal_fine.tol args)) as (_ & _ & S3).
  destruct (sewing_log_silent W shape (cal_fine.tol args)) as (S1 & _ & _).
  destruct (opening_log_quiet W args) as (_ & _ & O3).
  destruct (exact_log_quiet W solids u) as (_ & _ & X3).
  cbv zeta in S1, S3. fold tsew in S1, S3.
  destruct solids as [|s l].
  - cbn [nonempty] in H. split; [|intros E; now contradiction E].
    destruct (fpow (cal_fine.pitch args) 3); rewrite H; unfold trace at 1;
      cbn [fst]; rewrite !volume_queries_app, O3, S3;
      try destruct (cal_fine.show args); reflexivity.
  - cbn [nonempty] in H. rewrite H. unfold trace at 1 2.
    cbn [fst]. split.
    + now rewrite !volume_queries_app, O3, S3, X3.
    + intros _. exists (stdout (opening_log W args)).
      exists (entries W 0 (s :: l) (cal_fine.UNIT u)).
      exists (sum_from (of_int 0)
                (map volume_of (entries W 0 (s :: l) (cal_fine.UNIT u)))).
      split; [|split].
      * rewrite !stdout_app, S1. unfold exact_log. rewrite !stdout_app.
        destruct (silent_kernel_calls W (s :: l)) as (K1 & _). rewrite K1.
        assert (Hlen : List.length (entries W 0 (s :: l) (cal_fine.UNIT u))
                       = List.length (s :: l)).
        { rewrite <- (length_map volume_of), entries_volumes.
          apply length_map. }
        rewrite Hlen, stdout_printed. reflexivity.
      * rewrite <- (length_map volume_of), entries_volumes. apply length_map.
      * rewrite solids_volume_run. reflexivity.
Qed.

End Requests.

(** ** Signs and units in binary64 *)

Lemma leb_zero_nonneg (x : float) :
  PrimFloat.leb 0 x = true -> sf_nonneg (Prim2SF x) = true.
Proof.
  rewrite leb_spec. change (Prim2SF 0) with (S754_zero false).
  destruct (Prim2SF x) as [s|s| |s m e]; cbn [sf_nonneg]; try reflexivity;
    destruct s; try reflexivity; discriminate.
Qed.

Lemma unit_factor_nonneg (u : unit_name) :
  sf_nonneg (Prim2SF (voxel1.UNIT_SCALE (F := float) u)) = true.
Proof. destruct u; reflexivity. Qed.

Lemma binary64_cube_nonneg (x : float) :
  sf_nonneg (Prim2SF x) = true -> sf_nonneg (Prim2SF (float_mul_pow x 3)) = true.
Proof.
  intros H. change (float_mul_pow x 3) with (PrimFloat.mul x (PrimFloat.mul x x)).
  apply float_mul_nonneg; [exact H|]. now apply float_mul_nonneg.
Qed.

(** X14. In binary64 the unit conversion never changes the side of zero
    a volume is on: a volume that is at least 0 is not converted to a
    negative figure and a volume that is at most 0 is not converted to a
    positive one, for each of the three units. With [mm3] the figure is
    the volume itself, bit for bit. *)
Theorem conversion_keeps_the_sign (v : float) (u : unit_name) :
  (fleb (of_int 0) v = true -> fltb (voxel1.convert_volume v u) (of_int 0) = false) /\
  (fleb v (of_int 0) = true -> fltb (of_int 0) (voxel1.convert_volume v u) = false) /\
  voxel1.convert_volume v mm3 = v.
Proof.
  split; [|split].
  - intros H. apply leb_zero_nonneg in H.
    apply (nonneg_never_negative (PrimFloat.mul v (voxel1.UNIT_SCALE u))).
    apply float_mul_nonneg; [exact H | apply unit_factor_nonneg].
  - intros H. apply leb_zero_nonpos in H.
    apply (nonpos_never_positive (PrimFloat.mul v (voxel1.UNIT_SCALE u))).
    apply float_mul_nonpos_nonneg; [exact H | apply unit_factor_nonneg].
  - apply float_mul_one.
Qed.

(** X15. In binary64, with a pitch that is at least 0 and cell counts
    from 0 to 2^63, none of the three voxel approximators returns a
    negative volume, and the figure the tools print for it, in any unit, is
    not negative either. *)
Theorem nonnegative_pitch_volume_never_negative
    (W : World float) (mesh : PolyData W) (path : string) (pitch : float)
    (u : unit_name) :
  fleb (of_int 0) pitch = true ->
  0 <= n_cells W (voxelize W (triangulate W mesh) pitch) < 9223372036854775808 ->
  0 <= n_cells W (voxelize W (step_mesh W path) pitch) < 9223372036854775808 ->
  (forall vol,
      returned_volume (cal_fine.voxel_volume W mesh pitch) = Some vol ->
      fltb vol (of_int 0) = false /\
      fltb (fmul vol (cal_fine.UNIT u)) (of_int 0) = false) /\
  (forall vol,
      returned_volume (voxel1.voxel_volume_mm3 W mesh pitch) = Some vol ->
      fltb vol (of_int 0) = false /\
      fltb (voxel1.convert_volume vol u) (of_int 0) = false) /\
  (forall vol vox,
      result (voxel2.voxel_volume W path pitch (voxel2.unit_scale_table u))
        = Ret (vol, vox) ->
      fltb vol (of_int 0) = false).
Proof.
  intros Hp Hn Hn2. apply leb_zero_nonneg in Hp.
  assert (Hprod : forall n cube,
             float_pow pitch 3 = Some cube ->
             0 <= n < 9223372036854775808 ->
             sf_nonneg (Prim2SF (PrimFloat.mul (float_of_Z n) cube)) = true).
  { intros n cube Hc Hz. unfold float_pow in Hc.
    destruct (PrimFloat.is_finite pitch && _); [discriminate|].
    injection Hc as <-.
    apply float_mul_nonneg;
      [now apply float_of_Z_nonneg | now apply binary64_cube_nonneg]. }
  split; [|split].
  - intros vol. rewrite voxel_volume_run.
    unfold returned_volume, value, result. cbn [snd].
    change (@fpow float binary64) with float_pow.
    destruct (float_pow pitch 3) as [cube|] eqn:Hc; cbn [option_map snd];
      [|discriminate].
    intros E. injection E as <-.
    pose proof (Hprod _ cube eq_refl Hn) as H.
    split.
    + apply (nonneg_never_negative _ H).
    + apply (nonneg_never_negative
               (PrimFloat.mul (PrimFloat.mul (float_of_Z _) cube)
                              (cal_fine.UNIT u))).
      apply float_mul_nonneg; [exact H | apply (unit_factor_nonneg u)].
  - intros vol. rewrite voxel_volume_mm3_run.
    unfold returned_volume, value, result. cbn [snd].
    change (@fpow float binary64) with float_pow.
    destruct (float_pow pitch 3) as [cube|] eqn:Hc; cbn [option_map snd];
      [|discriminate].
    intros E. injection E as <-.
    pose proof (Hprod _ cube eq_refl Hn) as H.
    change (@fmul float binary64) with PrimFloat.mul.
    rewrite (float_mul_comm cube). split.
    + apply (nonneg_never_negative _ H).
    + apply (nonneg_never_negative
               (PrimFloat.mul (PrimFloat.mul (float_of_Z _) cube)
                              (voxel1.UNIT_SCALE u))).
      apply float_mul_nonneg; [exact H | apply unit_factor_nonneg].
  - intros vol vox. rewrite voxel2_volume_run. unfold result. cbn [snd].
    change (@fpow float binary64) with float_pow.
    destruct (float_pow pitch 3) as [cube|] eqn:Hc; [|discriminate].
    intros E. injection E as <- _.
    pose proof (Hprod _ cube eq_refl Hn2) as H.
    apply (nonneg_never_negative
             (PrimFloat.mul (PrimFloat.mul (float_of_Z _) cube)
                            (voxel2.unit_scale_table u))).
    apply float_mul_nonneg; [exact H | apply (unit_factor_nonneg u)].
Qed.

(** ** More on the volumes of the solids *)

Section SolidsCompose.
Context {F : Type} {N : Num F} (W : World F).

Lemma entries_app idx (xs ys : list (TopoDS_Shape W)) (s : F) :
  entries W idx (xs ++ ys) s =
    entries W idx xs s ++ entries W (idx + Z.of_nat (List.length xs)) ys s.
Proof.
  revert idx. induction xs as [|x xs IH]; intros idx; simpl.
  - now rewrite Z.add_0_r.
  - rewrite IH. do 3 f_equal. lia.
Qed.

Lemma entries_length idx (xs : list (TopoDS_Shape W)) (s : F) :
  List.length (entries W idx xs s) = List.length xs.
Proof. revert idx. induction xs; intros idx; simpl; [reflexivity | now rewrite IHxs]. Qed.

(** X16. [solids_volume] is stable under extension: for a list of
    solids followed by more solids, the entries of the first are those of
    the first alone, the entries of the others continue the numbering and
    carry their own scaled volumes and centres, and the total is the total
    of the first with the volumes of the others added to it in order. *)
Theorem solids_volume_of_an_extension
    (xs ys : list (TopoDS_Shape W)) (s : F) :
  exists infos1 total1 infos total,
    result (cal_fine.solids_volume W xs s) = Ret (infos1, total1) /\
    result (cal_fine.solids_volume W (xs ++ ys) s) = Ret (infos, total) /\
    firstn (List.length xs) infos = infos1 /\
    skipn (List.length xs) infos =
      map (fun '(k, solid) =>
             (Z.of_nat (List.length xs + k), fmul (Mass W solid) s,
              CentreOfMass W solid))
          (combine (seq 0 (List.length ys)) ys) /\
    total = sum_from total1 (map (fun solid => fmul (Mass W solid) s) ys).
Proof.
  eexists _, _, _, _. rewrite !solids_volume_run. unfold result. cbn [snd].
  split; [reflexivity|]. split; [reflexivity|].
  rewrite entries_app.
  assert (Hlen := entries_length 0 xs s).
  split; [|split].
  - rewrite <- Hlen at 1. rewrite firstn_app, Nat.sub_diag, firstn_all.
    simpl. apply app_nil_r.
  - rewrite <- Hlen at 1. rewrite skipn_app, Nat.sub_diag, skipn_all. simpl.
    generalize (List.length xs). intros n.
    assert (G : forall k zs,
               entries W (Z.of_nat n + Z.of_nat k) zs s =
               map (fun '(k, solid) =>
                      (Z.of_nat (n + k), fmul (Mass W solid) s,
                       CentreOfMass W solid))
                   (combine (seq k (List.length zs)) zs)).
    { intros k zs. revert k. induction zs as [|z zs IH]; intros k; simpl;
        [reflexivity|].
      rewrite Nat2Z.inj_add. f_equal.
      replace (Z.of_nat n + Z.of_nat k + 1) with (Z.of_nat n + Z.of_nat (S k))
        by lia.
      apply IH. }
    specialize (G 0%nat ys). simpl Z.of_nat in G at 2.
    rewrite Z.add_0_r in G. exact G.
  - rewrite map_app. unfold sum_from. rewrite fold_left_app.
    now rewrite entries_volumes.
Qed.

End SolidsCompose.

Lemma sum_from_shift (t : Qc) (xs : list Qc) :
  sum_from t xs = (t + sum_from 0%Qc xs)%Qc.
Proof.
  unfold sum_from. revert t. induction xs as [|x xs IH]; intros t;
    cbn [fold_left].
  - ring.
  - rewrite (IH (fadd t x)), (IH (fadd 0%Qc x)).
    change (@fadd Qc exact) with Qcplus. ring.
Qed.

Lemma sum_from_permutation (xs ys : list Qc) :
  Permutation xs ys -> sum_from 0%Qc xs = sum_from 0%Qc ys.
Proof.
  induction 1 as [|x xs ys _ IH|x y xs|xs ys zs _ IH1 _ IH2].
  - reflexivity.
  - change (sum_from 0%Qc (x :: xs)) with (sum_from (fadd 0%Qc x) xs).
    change (sum_from 0%Qc (x :: ys)) with (sum_from (fadd 0%Qc x) ys).
    rewrite (sum_from_shift _ xs), (sum_from_shift _ ys). now rewrite IH.
  - unfold sum_from. cbn [fold_left]. f_equal.
    change (@fadd Qc exact) with Qcplus. ring.
  - congruence.
Qed.

(** X17. The total [solids_volume] returns depends on the order of the
    solids only through rounding. In exact arithmetic two lists holding
    the same solids in different orders have the same total. In binary64
    they need not: solids of 2^53, 1 and 1 cubic millimetres total 2^53 in
    that order and 2^53 + 2 with the large one last. *)
Theorem total_depends_on_order_by_rounding_only :
  (forall (W : World Qc) (xs ys : list (TopoDS_Shape W)) (s : Qc),
      Permutation xs ys ->
      exists infos infos' total,
        result (cal_fine.solids_volume W xs s) = Ret (infos, total) /\
        result (cal_fine.solids_volume W ys s) = Ret (infos', total)) /\
  (let W := world_of (F := float) cube in
   let big : TopoDS_Shape W :=
     solid_of cube (of_int (2 ^ 53), (of_int 0, of_int 0, of_int 0)) in
   let small : TopoDS_Shape W :=
     solid_of cube (of_int 1, (of_int 0, of_int 0, of_int 0)) in
   Permutation [big; small; small] [small; small; big] /\
   option_map snd (value (cal_fine.solids_volume W [big; small; small] (of_int 1)))
     = Some (of_int (2 ^ 53)) /\
   option_map snd (value (cal_fine.solids_volume W [small; small; big] (of_int 1)))
     = Some (of_int (2 ^ 53 + 2))).
Proof.
  split.
  - intros W xs ys s Hp.
    exists (entries W 0 xs s), (entries W 0 ys s),
           (sum_from 0%Qc (map volume_of (entries W 0 xs s))).
    rewrite !solids_volume_run. unfold result. cbn [snd].
    change (@of_int Qc exact 0) with 0%Qc.
    split; [reflexivity|].
    assert (E : sum_from 0%Qc (map volume_of (entries W 0 ys s)) =
                sum_from 0%Qc (map volume_of (entries W 0 xs s))).
    { rewrite !entries_volumes. apply sum_from_permutation.
      apply Permutation_map. now apply Permutation_sym. }
    now rewrite E.
  - cbv zeta. split; [|split].
    + apply Permutation_cons_append with (l := [_; _]).
    + reflexivity.
    + reflexivity.
Qed.

(** ** The tools against each other *)

Section Agreement.
Context {F : Type} {N : Num F} (W : World F).

Lemma unit_tables_agree (u : unit_name) :
  cal_fine.UNIT (F := F) u = voxel1.UNIT_SCALE u /\
  cal_box.scale_table (F := F) u = voxel1.UNIT_SCALE u.
Proof. destruct u; split; reflexivity. Qed.

Lemma hybrid_stdout_opening (args : @cal_fine.Args F) :
  path_exists W (cal_fine.step args) = true ->
  ReadFile W (cal_fine.step args) = IFSelect_RetDone ->
  exists rest,
    stdout (trace (cal_fine.main W args)) = stdout (opening_log W args) ++ rest.
Proof.
  intros Hex Hread.
  destruct (sewing_to_solids_returns W (TransferredShape W (cal_fine.step args))
                                     (cal_fine.tol args)) as [solids Hs].
  pose proof (@hybrid_run _ _ W args Hex Hread solids Hs) as H. cbv zeta in H.
  destruct (nonempty solids); [|destruct (fpow (cal_fine.pitch args) 3)];
    rewrite H; unfold trace at 1; cbn [fst]; rewrite stdout_app;
    eexists; reflexivity.
Qed.

(** X18. The three tools that print a bounding-box volume print the same
    figure for the same file and unit: the product of the extents of the
    kernel's box times the unit factor. *)
Theorem bbox_figure_is_the_same_in_every_tool
    (a : @cal_fine.Args F) (b : @voxel1.Args F) (c : cal_box.Args) :
  voxel1.step b = cal_fine.step a -> cal_box.step c = cal_fine.step a ->
  voxel1.unit_ b = cal_fine.unit_ a -> cal_box.unit_ c = cal_fine.unit_ a ->
  cal_fine.bbox a = true -> voxel1.bbox b = true ->
  path_exists W (cal_fine.step a) = true ->
  ReadFile W (cal_fine.step a) = IFSelect_RetDone ->
  let u := cal_fine.unit_ a in
  let v := fmul (extents_product (BndGet W (TransferredShape W (cal_fine.step a))))
                (voxel1.UNIT_SCALE u) in
  In [Txt "[BBox] volume = "; Fix 6 v; Txt " "; Txt (unit_str u)]
     (stdout (trace (cal_fine.main W a))) /\
  In [Txt "  Volume("; Txt (unit_str u); Txt "): "; Fix 6 v]
     (stdout (trace (voxel1.main W b))) /\
  In [Txt "  Volume: "; Fix 6 v; Txt " "; Txt (unit_str u)]
     (stdout (trace (cal_box.main W c))).
Proof.
  intros Sb Sc Ub Uc Ba Bb Hex Hread u v. subst u v.
  split; [|split].
  - destruct (hybrid_stdout_opening a Hex Hread) as [rest ->].
    apply in_or_app. left. unfold opening_log. rewrite Ba.
    rewrite (proj1 (unit_tables_agree (cal_fine.unit_ a))).
    simpl. right. left. reflexivity.
  - rewrite <- Sb in Hex, Hread.
    pose proof (voxel1_main_run W b Hex Hread) as H. cbv zeta in H.
    rewrite H. clear H.
    unfold voxel1_opening_log, voxel1_box_log, voxel1.convert_volume.
    rewrite Bb, Sb, Ub.
    destruct (BndGet W (TransferredShape W (cal_fine.step a)))
      as [[[[[xmin ymin] zmin] xmax] ymax] zmax].
    destruct (n_points W _ =? 0); [|destruct (fpow (voxel1.pitch b) 3)];
      unfold trace; cbn [fst]; rewrite !stdout_app; apply in_or_app; left;
      simpl; do 5 right; left; reflexivity.
  - rewrite <- Sc in Hex, Hread.
    destruct (cal_box_main_prints_box W c Hex Hread) as [coordinates ->].
    apply in_or_app. right. rewrite Sc, Uc.
    rewrite (proj2 (unit_tables_agree (cal_fine.unit_ a))). left. reflexivity.
Qed.

Lemma voxel_figures_agree
    (fmul_comm : forall x y : F, fmul x y = fmul y x)
    (a : @cal_fine.Args F) (b : @voxel1.Args F) :
  voxel1.step b = cal_fine.step a ->
  voxel1.pitch b = cal_fine.pitch a ->
  voxel1.unit_ b = cal_fine.unit_ a ->
  path_exists W (cal_fine.step a) = true ->
  ReadFile W (cal_fine.step a) = IFSelect_RetDone ->
  let shape := TransferredShape W (cal_fine.step a) in
  result (cal_fine.sewing_to_solids W shape (cal_fine.tol a)) = Ret [] ->
  n_points W (stl_mesh W shape) <> 0 ->
  let u := cal_fine.unit_ a in
  let pitch := cal_fine.pitch a in
  let vox := voxelize W (triangulate W (stl_mesh W shape)) pitch in
  match fpow pitch 3 with
  | Some cube =>
      let v := fmul (fmul (of_int (n_cells W vox)) cube) (voxel1.UNIT_SCALE u) in
      In (voxel_line u pitch v) (stdout (trace (cal_fine.main W a))) /\
      In (voxel1_volume_line u v) (stdout (trace (voxel1.main W b))) /\
      result (cal_fine.main W a) = Ret tt /\
      result (voxel1.main W b) = Ret tt
  | None =>
      result (cal_fine.main W a) = OverflowError /\
      result (voxel1.main W b) = OverflowError
  end.
Proof.
  intros Sb Pb Ub Hex Hread shape Hs Hn u pitch vox.
  pose proof (@hybrid_run _ _ W a Hex Hread [] Hs) as Ha. cbv zeta in Ha.
  cbn [nonempty] in Ha. fold shape pitch u vox in Ha.
  assert (Hex' := Hex). assert (Hread' := Hread).
  rewrite <- Sb in Hex', Hread'.
  pose proof (voxel1_main_run W b Hex' Hread') as Hb. cbv zeta in Hb.
  rewrite Sb, Pb in Hb. fold shape pitch in Hb.
  apply Z.eqb_neq in Hn. rewrite Hn in Hb.
  destruct (fpow pitch 3) as [cube|].
  - rewrite Ha, Hb. unfold trace, result. cbn [fst snd].
    split; [|split; [|split; reflexivity]].
    + rewrite !stdout_app. apply in_or_app. right. apply in_or_app. right.
      apply in_or_app. right. apply in_or_app. left.
      rewrite (proj1 (unit_tables_agree u)). left. reflexivity.
    + rewrite !stdout_app. apply in_or_app. right. apply in_or_app. right.
      unfold voxel1_result_log, voxel1.convert_volume.
      rewrite Sb, Pb, Ub. fold shape pitch vox u.
      rewrite (fmul_comm cube). rewrite stdout_app. apply in_or_app. left.
      simpl. do 3 right. left. reflexivity.
  - rewrite Ha, Hb. split; reflexivity.
Qed.

End Agreement.

(** X19. For a shape in which nothing closes and whose mesh has points,
    the hybrid tool and the stand-alone voxel tool, given the same file,
    pitch and unit, print the same volume figure, in binary64 as in exact
    arithmetic: the cell count times the cube of the pitch, times the unit
    factor. When the cube of the pitch overflows, both end with
    [OverflowError]. *)
Theorem hybrid_fallback_agrees_with_voxel1 :
  (forall (W : World float) (a : @cal_fine.Args float) (b : @voxel1.Args float),
      voxel1.step b = cal_fine.step a ->
      voxel1.pitch b = cal_fine.pitch a ->
      voxel1.unit_ b = cal_fine.unit_ a ->
      path_exists W (cal_fine.step a) = true ->
      ReadFile W (cal_fine.step a) = IFSelect_RetDone ->
      let shape := TransferredShape W (cal_fine.step a) in
      result (cal_fine.sewing_to_solids W shape (cal_fine.tol a)) = Ret [] ->
      n_points W (stl_mesh W shape) <> 0 ->
      let u := cal_fine.unit_ a in
      let pitch := cal_fine.pitch a in
      let vox := voxelize W (triangulate W (stl_mesh W shape)) pitch in
      match fpow pitch 3 with
      | Some cube =>
          let v := fmul (fmul (of_int (n_cells W vox)) cube)
                        (voxel1.UNIT_SCALE u) in
          In (voxel_line u pitch v) (stdout (trace (cal_fine.main W a))) /\
          In (voxel1_volume_line u v) (stdout (trace (voxel1.main W b))) /\
          result (cal_fine.main W a) = Ret tt /\
          result (voxel1.main W b) = Ret tt
      | None =>
          result (cal_fine.main W a) = OverflowError /\
          result (voxel1.main W b) = OverflowError
      end) /\
  (forall (W : World Qc) (a : @cal_fine.Args Qc) (b : @voxel1.Args Qc),
      voxel1.step b = cal_fine.step a ->
      voxel1.pitch b = cal_fine.pitch a ->
      voxel1.unit_ b = cal_fine.unit_ a ->
      path_exists W (cal_fine.step a) = true ->
      ReadFile W (cal_fine.step a) = IFSelect_RetDone ->
      let shape := TransferredShape W (cal_fine.step a) in
      result (cal_fine.sewing_to_solids W shape (cal_fine.tol a)) = Ret [] ->
      n_points W (stl_mesh W shape) <> 0 ->
      let u := cal_fine.unit_ a in
      let pitch := cal_fine.pitch a in
      let vox := voxelize W (triangulate W (stl_mesh W shape)) pitch in
      exists cube,
        fpow pitch 3 = Some cube /\
        let v := fmul (fmul (of_int (n_cells W vox)) cube)
                      (voxel1.UNIT_SCALE u) in
        In (voxel_line u pitch v) (stdout (trace (cal_fine.main W a))) /\
        In (voxel1_volume_line u v) (stdout (trace (voxel1.main W b)))).
Proof.
  split.
  - intros W a b Sb Pb Ub Hex Hread shape Hs Hn.
    exact (@voxel_figures_agree float binary64 W binary64_mul_comm a b
             Sb Pb Ub Hex Hread Hs Hn).
  - intros W a b Sb Pb Ub Hex Hread shape Hs Hn u pitch vox.
    pose proof (@voxel_figures_agree Qc exact W exact_mul_comm a b
                  Sb Pb Ub Hex Hread Hs Hn) as H.
    cbv zeta in H. eexists. split; [reflexivity|].
    cbv zeta. split; apply H.
Qed.

(** ** The statements at concrete scenes *)

(** C1 on the open cube, in binary64: the reconstruction returns nothing
    and the voxelizer is run once, at the default pitch. *)
Lemma main_exact_xor_voxel_witness :
  let W := world_of (F := float) open_cube in
  let args := hybrid_defaults "open_cube.step" in
  path_exists W (cal_fine.step args) = true /\
  ReadFile W (cal_fine.step args) = IFSelect_RetDone /\
  voxel_pitches (trace (cal_fine.main W args)) = [cal_fine.pitch args].
Proof.
  cbv zeta. split; [reflexivity|]. split; [reflexivity|].
  destruct (main_exact_xor_voxel (world_of (F := float) open_cube)
              (hybrid_defaults "open_cube.step") eq_refl eq_refl)
    as (solids & Hs & _ & _ & Hv & _).
  apply Hv. injection Hs as <-. reflexivity.
Defined.

(** C2 on a file without geometry, in binary64: the hybrid tool prints a
    voxel volume of zero and ends normally. *)
Lemma empty_mesh_witness :
  let W := world_of (F := float) nothing in
  let args := hybrid_defaults "nothing.step" in
  let shape := TransferredShape W (cal_fine.step args) in
  (path_exists W (cal_fine.step args) = true /\
   ReadFile W (cal_fine.step args) = IFSelect_RetDone /\
   result (cal_fine.sewing_to_solids W shape (cal_fine.tol args)) = Ret [] /\
   n_points W (stl_mesh W shape) = 0 /\
   fpow (cal_fine.pitch args) 3 = Some (fdiv (of_int 1) (of_int 8))) /\
  result (cal_fine.main W args) = Ret tt /\
  exit_code (cal_fine.main W args) = 0 /\
  stderr (trace (cal_fine.main W args)) = [] /\
  reports (trace (cal_fine.main W args)) =
    [RVoxel (cal_fine.pitch args) (of_int 0)].
Proof.
  cbv zeta. split; [repeat split; reflexivity|].
  assert (Hc : fpow (cal_fine.pitch (hybrid_defaults (F := float) "nothing.step")) 3
               = Some (fdiv (of_int 1) (of_int 8))) by reflexivity.
  destruct (proj1 (proj2 (@empty_mesh_reported_by_voxel1_only float binary64
                            (world_of (F := float) nothing)))
              (hybrid_defaults "nothing.step") (fdiv (of_int 1) (of_int 8))
              eq_refl eq_refl eq_refl eq_refl Hc)
    as (H1 & H2 & H3 & _ & H5).
  repeat split; assumption.
Defined.

(** C7 on the cube, in exact arithmetic. *)
Lemma bbox_volume_witness :
  well_formed_box (box (F := Qc) cube) = true /\
  fleb (of_int 0) (extents_product (box (F := Qc) cube)) = true.
Proof.
  split; [reflexivity|].
  exact (proj1 (proj2 (proj2 bbox_volume_is_extents_product))
               (box (F := Qc) cube) eq_refl).
Defined.

(** C8 at a path where there is no file. *)
Lemma missing_step_witness :
  let W := world_of (F := float) missing in
  let args := hybrid_defaults "missing.step" in
  path_exists W (cal_fine.step args) = false /\
  result (cal_fine.main W args) = SysExit 1 /\
  exit_code (cal_fine.main W args) = 1 /\
  untouched (trace (cal_fine.main W args)) = true.
Proof.
  cbv zeta. split; [reflexivity|].
  exact (proj1 (missing_step_exits_1 (world_of (F := float) missing))
               (hybrid_defaults "missing.step") eq_refl).
Defined.

(** C10 on a grid of one cell at the pitch -1, in exact arithmetic: the
    volume returned is below zero. *)
Lemma voxel_volume_unguarded_witness :
  let W := world_of (F := Qc) one_cell in
  let mesh := stl_mesh W Whole in
  let pitch : Qc := of_int (-1) in
  let vox := voxelize W (triangulate W mesh) pitch in
  fleb pitch (of_int 0) = true /\
  0 <= n_cells W vox /\
  fltb pitch (of_int 0) = true /\
  Z.odd (n_cells W vox) = true /\
  exists vol,
    result (cal_fine.voxel_volume W mesh pitch) = Ret (vox, vol) /\
    fltb vol (of_int 0) = true.
Proof.
  cbv zeta. split; [reflexivity|]. split; [easy|].
  split; [reflexivity|]. split; [reflexivity|].
  assert (Hp : fleb (F := Qc) (of_int (-1)) (of_int 0) = true) by reflexivity.
  assert (Hn : 0 <= 1) by easy.
  destruct (proj1 (proj2 voxel_volume_unguarded) (world_of (F := Qc) one_cell)
              (stl_mesh (world_of (F := Qc) one_cell) Whole) (of_int (-1))
              Hp Hn)
    as (vol & H1 & _ & _ & _ & H5).
  exists vol. split; [exact H1|]. apply H5; reflexivity.
Defined.

(** ** The further statements at concrete scenes *)

(** X1 on a file the reader rejects, in binary64: the hybrid tool ends
    with status 1 after the read attempt. *)
Lemma unreadable_step_witness :
  let W := world_of (F := float) unreadable in
  let args := hybrid_defaults "broken.step" in
  path_exists W (cal_fine.step args) = true /\
  ReadFile W (cal_fine.step args) <> IFSelect_RetDone /\
  exit_code (cal_fine.main W args) = 1 /\
  filter (fun e => loads e || touches e) (trace (cal_fine.main W args)) =
    [EReadFile "broken.step"].
Proof.
  cbv zeta. split; [reflexivity|].
  assert (Hr : ReadFile (world_of (F := float) unreadable) "broken.step"
               <> IFSelect_RetDone) by discriminate.
  split; [exact Hr|].
  destruct (proj1 (@unreadable_step_is_fatal float binary64
                     (world_of (F := float) unreadable))
              (hybrid_defaults "broken.step") eq_refl Hr)
    as (_ & H2 & H3 & _).
  split; [exact H2 | exact H3].
Defined.

(** X4 on the cube: six faces, six files. *)
Lemma export_writes_one_file_per_face_witness :
  let W := world_of (F := float) cube in
  ReadFile W "cube.step" = IFSelect_RetDone /\
  result (test.export_step_faces_to_stl W "cube.step" "faces_out") =
    Ret ["faces_out/face_0.stl"; "faces_out/face_1.stl"; "faces_out/face_2.stl";
         "faces_out/face_3.stl"; "faces_out/face_4.stl"; "faces_out/face_5.stl"].
Proof.
  cbv zeta. split; [reflexivity|].
  exact (proj1 (@export_writes_one_file_per_face float
                  (world_of (F := float) cube) "cube.step" "faces_out" eq_refl)).
Defined.

(** X5 on a shape of twelve faces, with an output directory that ends in
    a slash. *)
Lemma exported_files_are_distinct_witness :
  let W := world_of (F := float) two_solids in
  ReadFile W "two.step" = IFSelect_RetDone /\
  exists names,
    result (test.export_step_faces_to_stl W "two.step" "out/") = Ret names /\
    map snd (written_files
               (trace (test.export_step_faces_to_stl W "two.step" "out/")))
      = names /\
    NoDup names.
Proof.
  cbv zeta. split; [reflexivity|].
  exact (@exported_files_are_distinct float
           (world_of (F := float) two_solids) "two.step" "out/" eq_refl).
Defined.

(** X6 on a shape of one face: one file written, the same file read, one
    viewer. *)
Lemma viewer_loads_what_was_exported_witness :
  let sc := one_cell (F := float) in
  let W := world_of sc in
  let args := {| test.step := "part.step"; test.out := "faces_out" |} in
  path_exists W (test.step args) = true /\
  ReadFile W (test.step args) = IFSelect_RetDone /\
  file_system (trace (test.main W args)) =
    [EMakeDirs "faces_out"; EWriteStl (face_of sc 0) "faces_out/face_0.stl";
     EReadMesh "faces_out/face_0.stl"] /\
  viewers (trace (test.main W args)) = 1%nat.
Proof.
  cbv zeta. split; [reflexivity|]. split; [reflexivity|].
  destruct (@viewer_loads_what_was_exported float
              (world_of (F := float) one_cell)
              {| test.step := "part.step"; test.out := "faces_out" |}
              eq_refl eq_refl)
    as (_ & H2 & H3 & _).
  split; [exact H2 | exact H3].
Defined.

(** X8 on the open cube: the fallback goes through [t.stl]. *)
Lemma temporary_file_witness :
  let sc := open_cube (F := float) in
  let W := world_of sc in
  let args := hybrid_defaults "open_cube.step" in
  path_exists W (cal_fine.step args) = true /\
  ReadFile W (cal_fine.step args) = IFSelect_RetDone /\
  result (cal_fine.sewing_to_solids W (whole sc) (cal_fine.tol args)) = Ret [] /\
  file_system (trace (cal_fine.main W args)) =
    [ETempDir true; EWriteStl (whole sc) "t.stl"; EReadMesh "t.stl";
     ETempDir false].
Proof.
  cbv zeta. split; [reflexivity|]. split; [reflexivity|].
  split; [reflexivity|].
  exact (proj1 (@mesh_goes_through_a_temporary_file float binary64
                  (world_of (F := float) open_cube))
               (hybrid_defaults "open_cube.step") [] eq_refl eq_refl eq_refl).
Defined.

(** X12 on two shells of which one closes: no voxelization. *)
Lemma fallback_iff_nothing_closes_witness :
  let W := world_of (F := float) two_shells in
  let args := hybrid_defaults "two_shells.step" in
  path_exists W (cal_fine.step args) = true /\
  ReadFile W (cal_fine.step args) = IFSelect_RetDone /\
  (voxel_pitches (trace (cal_fine.main W args)) = [cal_fine.pitch args] <->
   Explorer W (SewedShape W (cal_fine.tol args)
                          (TransferredShape W (cal_fine.step args)))
            TopAbs_SOLID = [] /\
   Forall (fun shell => MakeSolid W shell = None)
          (Explorer W (SewedShape W (cal_fine.tol args)
                                  (TransferredShape W (cal_fine.step args)))
                    TopAbs_SHELL)).
Proof.
  cbv zeta. split; [reflexivity|]. split; [reflexivity|].
  exact (proj1 (@fallback_iff_nothing_closes float binary64
                  (world_of (F := float) two_shells)
                  (hybrid_defaults "two_shells.step") eq_refl eq_refl)).
Defined.

(** X13 on two solids: both are measured, in order. *)
Lemma every_solid_is_measured_once_witness :
  let sc := two_solids (F := float) in
  let W := world_of sc in
  let args := hybrid_defaults "two.step" in
  let solids := Explorer W (whole sc) TopAbs_SOLID in
  path_exists W (cal_fine.step args) = true /\
  ReadFile W (cal_fine.step args) = IFSelect_RetDone /\
  result (cal_fine.sewing_to_solids W (whole sc) (cal_fine.tol args))
    = Ret solids /\
  volume_queries (trace (cal_fine.main W args)) = solids.
Proof.
  cbv zeta. split; [reflexivity|]. split; [reflexivity|].
  split; [reflexivity|].
  exact (proj1 (@every_solid_is_measured_once float binary64
                  (world_of (F := float) two_solids)
                  (hybrid_defaults "two.step")
                  (Explorer (world_of (F := float) two_solids) Whole TopAbs_SOLID)
                  eq_refl eq_refl eq_refl)).
Defined.

(** X14 at 9 cubic millimetres in cm3. *)
Lemma conversion_keeps_the_sign_witness :
  fleb (of_int 0) (of_int (F := float) 9) = true /\
  fltb (voxel1.convert_volume (of_int (F := float) 9) cm3) (of_int 0) = false.
Proof.
  assert (H : fleb (of_int 0) (of_int (F := float) 9) = true) by reflexivity.
  split; [exact H|].
  exact (proj1 (conversion_keeps_the_sign (of_int 9) cm3) H).
Defined.

(** X15 on the open cube at the pitch 1/2. *)
Lemma nonnegative_pitch_witness :
  let W := world_of (F := float) open_cube in
  let mesh := stl_mesh W Whole in
  let pitch : float := fdiv (of_int 1) (of_int 2) in
  fleb (of_int 0) pitch = true /\
  0 <= n_cells W (voxelize W (triangulate W mesh) pitch) < 9223372036854775808 /\
  0 <= n_cells W (voxelize W (step_mesh W "open_cube.step") pitch)
    < 9223372036854775808 /\
  exists vol,
    returned_volume (cal_fine.voxel_volume W mesh pitch) = Some vol /\
    fltb vol (of_int 0) = false.
Proof.
  cbv zeta.
  assert (Hp : fleb (of_int 0) (fdiv (of_int (F := float) 1) (of_int 2)) = true)
    by reflexivity.
  assert (Hn : 0 <= 1000 < 9223372036854775808) by lia.
  split; [exact Hp|]. split; [exact Hn|]. split; [exact Hn|].
  eexists. split; [reflexivity|].
  exact (proj1 (proj1 (@nonnegative_pitch_volume_never_negative
                         (world_of (F := float) open_cube)
                         (stl_mesh (world_of (F := float) open_cube) Whole)
                         "open_cube.step" (fdiv (of_int 1) (of_int 2)) cm3
                         Hp Hn Hn)
                      _ eq_refl)).
Defined.

(** X18 on the cube, in cm3: all three tools print 1.000000. *)
Lemma bbox_figure_witness :
  let W := world_of (F := float) cube in
  let a := {| cal_fine.step := "cube.step";
              cal_fine.tol := fdiv (of_int 5) (of_int 100);
              cal_fine.pitch := fdiv (of_int 1) (of_int 2);
              cal_fine.unit_ := cm3; cal_fine.show := false;
              cal_fine.bbox := true |} in
  let b := {| voxel1.step := "cube.step"; voxel1.pitch := of_int 1;
              voxel1.unit_ := cm3; voxel1.show := false;
              voxel1.bbox := true |} in
  let c := {| cal_box.step := "cube.step"; cal_box.out := "faces_out";
              cal_box.unit_ := cm3 |} in
  path_exists W "cube.step" = true /\
  ReadFile W "cube.step" = IFSelect_RetDone /\
  In [Txt "[BBox] volume = "; Fix 6 (of_int 1); Txt " "; Txt "cm3"]
     (stdout (trace (cal_fine.main W a))) /\
  In [Txt "  Volume(" ; Txt "cm3"; Txt "): "; Fix 6 (of_int 1)]
     (stdout (trace (voxel1.main W b))) /\
  In [Txt "  Volume: "; Fix 6 (of_int 1); Txt " "; Txt "cm3"]
     (stdout (trace (cal_box.main W c))).
Proof.
  cbv zeta. split; [reflexivity|]. split; [reflexivity|].
  exact (@bbox_figure_is_the_same_in_every_tool float binary64
           (world_of (F := float) cube)
           {| cal_fine.step := "cube.step";
              cal_fine.tol := fdiv (of_int 5) (of_int 100);
              cal_fine.pitch := fdiv (of_int 1) (of_int 2);
              cal_fine.unit_ := cm3; cal_fine.show := false;
              cal_fine.bbox := true |}
           {| voxel1.step := "cube.step"; voxel1.pitch := of_int 1;
              voxel1.unit_ := cm3; voxel1.show := false;
              voxel1.bbox := true |}
           {| cal_box.step := "cube.step"; cal_box.out := "faces_out";
              cal_box.unit_ := cm3 |}
           eq_refl eq_refl eq_refl eq_refl eq_refl eq_refl eq_refl eq_refl).
Defined.

(** X19 on the open cube at the pitch 1/2: both tools print 0.125 cm3. *)
Lemma hybrid_agrees_with_voxel1_witness :
  let W := world_of (F := float) open_cube in
  let a := hybrid_defaults "open_cube.step" in
  let b := {| voxel1.step := "open_cube.step";
              voxel1.pitch := fdiv (of_int 1) (of_int 2);
              voxel1.unit_ := cm3; voxel1.show := false;
              voxel1.bbox := false |} in
  let v : float := fdiv (of_int 1) (of_int 8) in
  (path_exists W (cal_fine.step a) = true /\
   ReadFile W (cal_fine.step a) = IFSelect_RetDone /\
   result (cal_fine.sewing_to_solids W Whole (cal_fine.tol a)) = Ret [] /\
   n_points W (stl_mesh W Whole) <> 0) /\
  In (voxel_line cm3 (cal_fine.pitch a) v) (stdout (trace (cal_fine.main W a))) /\
  In (voxel1_volume_line cm3 v) (stdout (trace (voxel1.main W b))).
Proof.
  cbv zeta.
  assert (Hn : n_points (world_of (F := float) open_cube)
                 (stl_mesh (world_of (F := float) open_cube) Whole) <> 0)
    by discriminate.
  split; [repeat split; try reflexivity; exact Hn|].
  pose proof (proj1 hybrid_fallback_agrees_with_voxel1
                (world_of (F := float) open_cube)
                (hybrid_defaults "open_cube.step")
                {| voxel1.step := "open_cube.step";
                   voxel1.pitch := fdiv (of_int 1) (of_int 2);
                   voxel1.unit_ := cm3; voxel1.show := false;
                   voxel1.bbox := false |}
                eq_refl eq_refl eq_refl eq_refl eq_refl eq_refl Hn) as H.
  cbv zeta in H. destruct H as (H1 & H2 & _). split; [exact H1 | exact H2].
Defined.
